(** * django-gsheets: the sheet mixins of [gsheets/mixins.py]

    A shallow embedding of [BaseGoogleSheetMixin] and [SheetPushableMixin]:
    the range addressing (two regular-expression searches over the combined
    range string), the lazily fetched snapshot of the sheet (header row and
    data rows), the linear scan for an existing row, and the batched upsert
    with its periodic and final write-outs.

    Python objects are modelled as follows.
    - A [str] is a [string].  The embedding of the two patterns and of
      [int] is exact on ASCII text, where the class [\d] is the ten digits
      [0] to [9].  On a [str] Python's [\d] also matches the decimal digits
      of other scripts, and [int] converts them; the characters of a
      [string] do not tell these apart, so a statement that rests on a
      character not being a digit is made for ASCII text only
      ([is_ascii_char]).
    - A cell, an attribute of a model instance and the value of a keyword
      argument is a [value]: a [str], an [int] or [None]; [==] on these is
      structural equality.
    - A [dict] is an association list in insertion order.
    - An exception is a constructor of [exn]; a method of the mixin is a
      function from the session to a result and the session it leaves
      behind, so that a mutation made before a [raise] stays visible.
    - The Sheets client is the field [api_values] (what
      [values().get(...).execute().get('values', [])] evaluates to, or the
      exception it raises), the counter [fetches] of [get] requests, and the
      list [writeouts] of the [batchUpdate] requests sent, in order.  A
      [batchUpdate] request is taken to return. *)

From stdpp Require Import base list strings pretty sorting.
From Stdlib Require Import ZArith Lia Ascii.

Open Scope Z_scope.

(** ** Python values and exceptions *)

Module Py.

Inductive exn : Set :=
| AttributeError
| IndexError
| KeyError
| ValueError
| ZeroDivisionError
| HttpError.

Inductive result (A : Type) : Type :=
| Ok (a : A)
| Err (e : exn).

Arguments Ok {A} a.
Arguments Err {A} e.

Inductive value : Set :=
| VStr (s : string)
| VInt (n : Z)
| VNone.

#[global] Instance exn_eq_dec : EqDecision exn.
Proof. solve_decision. Defined.

#[global] Instance value_eq_dec : EqDecision value.
Proof. solve_decision. Defined.

(** [l.index(x)]: the offset of the first element equal to [x]. *)
Definition index (x : value) (l : list value) : result nat :=
  match list_find (λ y, y = x) l with
  | Some (i, _) => Ok i
  | None => Err ValueError
  end.

(** [l[i]] for an offset [i] that is not negative. *)
Definition getitem {A} (l : list A) (i : nat) : result A :=
  match l !! i with
  | Some a => Ok a
  | None => Err IndexError
  end.

(** The bound of a slice: a negative offset counts from the end, and every
    offset is clamped to the list. *)
Definition slice_bound (len i : Z) : Z :=
  if i <? 0 then Z.max 0 (i + len) else Z.min i len.

(** [l[a:b]] *)
Definition slice {A} (l : list A) (a b : Z) : list A :=
  let len := Z.of_nat (length l) in
  let lo := slice_bound len a in
  let hi := slice_bound len b in
  take (Z.to_nat (hi - lo)) (drop (Z.to_nat lo) l).

(** [l[a:]] *)
Definition slice_from {A} (l : list A) (a : Z) : list A :=
  drop (Z.to_nat (slice_bound (Z.of_nat (length l)) a)) l.

(** A [dict] with [str] keys, in insertion order. *)
Abbreviation dict := (list (string * value)) (only parsing).

Fixpoint dict_get (k : string) (d : dict) : option value :=
  match d with
  | [] => None
  | (k', v) :: d' => if String.eqb k k' then Some v else dict_get k d'
  end.

(** [d[k] = v]: an existing key keeps its place. *)
Fixpoint dict_set (k : string) (v : value) (d : dict) : dict :=
  match d with
  | [] => [(k, v)]
  | (k', v') :: d' =>
      if String.eqb k k' then (k', v) :: d' else (k', v') :: dict_set k v d'
  end.

Definition keys (d : dict) : list string := map fst d.

(** [d[k]] *)
Definition dict_item (k : string) (d : dict) : result value :=
  match dict_get k d with
  | Some v => Ok v
  | None => Err KeyError
  end.

(** [getattr(obj, f)] on an instance given by its attributes. *)
Definition getattr (obj : dict) (f : string) : result value :=
  match dict_get f obj with
  | Some v => Ok v
  | None => Err AttributeError
  end.

(** The class [\d] on ASCII text: the digits [0] to [9].  (On other text
    Python's class is wider, see the note on [str] above.) *)
Definition is_digit (c : ascii) : bool :=
  ((48 <=? N_of_ascii c) && (N_of_ascii c <=? 57))%N.

Definition is_upper (c : ascii) : bool :=
  ((65 <=? N_of_ascii c) && (N_of_ascii c <=? 90))%N.

Fixpoint digits_value (acc : Z) (s : string) : option Z :=
  match s with
  | EmptyString => Some acc
  | String c t =>
      if is_digit c
      then digits_value (10 * acc + Z.of_N (N_of_ascii c - 48)) t
      else None
  end.

(** [int(v)] for an [int] and for a [str] of decimal digits. *)
Definition int (v : value) : result Z :=
  match v with
  | VInt n => Ok n
  | VStr EmptyString => Err ValueError
  | VStr s =>
      match digits_value 0 s with
      | Some n => Ok n
      | None => Err ValueError
      end
  | VNone => Err ValueError
  end.

(** [sorted(l, key=lambda x: x[1])]: a stable sort on the second component. *)
Fixpoint insert_by_ix (x : string * nat) (l : list (string * nat)) :
    list (string * nat) :=
  match l with
  | [] => [x]
  | y :: t => if (x.2 <=? y.2)%nat then x :: l else y :: insert_by_ix x t
  end.

Definition sorted_by_ix (l : list (string * nat)) : list (string * nat) :=
  foldr insert_by_ix [] l.

End Py.

Export Py.

(** ** The fragment of [re] the mixin uses

    Literals, greedy repetition of a character class and capturing groups,
    in sequence.  [matches] lists every way the pattern matches at the start
    of the subject, in the order a backtracking matcher tries them: the
    longest repetition first.  [search] scans the subject from the left and
    keeps the first match of the first offset that has one. *)

Module Re.

Inductive regex : Type :=
| Chr (c : ascii)
| Plus (cls : ascii → bool)
| Star (cls : ascii → bool)
| Group (r : regex)
| Seq (r1 r2 : regex).

(** The ways [cls*] matches at the start of [s], longest first: the text
    consumed and what is left. *)
Fixpoint rep (cls : ascii → bool) (s : string) : list (string * string) :=
  match s with
  | String c t =>
      if cls c
      then map (λ m, (String c m.1, m.2)) (rep cls t) ++ [(EmptyString, s)]
      else [(EmptyString, s)]
  | EmptyString => [(EmptyString, EmptyString)]
  end.

(** A way to match: the text consumed, the groups captured, what is left. *)
Definition way : Type := string * list string * string.

Fixpoint matches (r : regex) (s : string) : list way :=
  match r with
  | Chr c =>
      match s with
      | String c' t => if Ascii.eqb c c' then [(String c EmptyString, [], t)] else []
      | EmptyString => []
      end
  | Plus cls =>
      match s with
      | String c t =>
          if cls c
          then map (λ m, (String c m.1, [], m.2)) (rep cls t)
          else []
      | EmptyString => []
      end
  | Star cls => map (λ m, (m.1, [], m.2)) (rep cls s)
  | Group r' => map (λ w, (w.1.1, w.1.1 :: w.1.2, w.2)) (matches r' s)
  | Seq r1 r2 =>
      w1 ← matches r1 s;
      map (λ w2, (w1.1.1 +:+ w2.1.1, w1.1.2 ++ w2.1.2, w2.2)) (matches r2 w1.2)
  end.

(** [re.search(r, s)], as the [groups()] of the match object. *)
Fixpoint search (r : regex) (s : string) : option (list string) :=
  match matches r s with
  | w :: _ => Some w.1.2
  | [] =>
      match s with
      | String _ t => search r t
      | EmptyString => None
      end
  end.

End Re.

(** ** Configuration and session state of a mixin instance *)

(** The class attributes of [BaseGoogleSheetMixin]. *)
Record config : Set := Config {
  sheet_name : string;
  data_range : string;
  model_id_field : string;
  sheet_id_field : string;
  batch_size : Z;
  max_rows : Z;
  max_col : string
}.

Definition default_config : config :=
  {| sheet_name := "Sheet1";
     data_range := "A1:Z";
     model_id_field := "id";
     sheet_id_field := "Django GUID";
     batch_size := 500;
     max_rows := 30000;
     max_col := "Z" |}.

(** A row of the sheet: its cells. *)
Abbreviation row := (list value) (only parsing).

(** The instance attributes [_sheet_data] and [_sheet_headers] ([None]
    until the first fetch), the Sheets client seen from the mixin, and the
    records logged at level [info]. *)
Record session : Set := Session {
  _sheet_data : option (list row);
  _sheet_headers : option row;
  api_values : result (list row);
  fetches : nat;
  writeouts : list (string * list row);
  log : list string
}.

Definition set_sheet_data (d : option (list row)) (st : session) : session :=
  Session d (_sheet_headers st) (api_values st) (fetches st) (writeouts st) (log st).

Definition set_sheet_headers (h : option row) (st : session) : session :=
  Session (_sheet_data st) h (api_values st) (fetches st) (writeouts st) (log st).

Definition count_fetch (st : session) : session :=
  Session (_sheet_data st) (_sheet_headers st) (api_values st) (S (fetches st))
    (writeouts st) (log st).

Definition add_writeout (w : string * list row) (st : session) : session :=
  Session (_sheet_data st) (_sheet_headers st) (api_values st) (fetches st)
    (writeouts st ++ [w]) (log st).

Definition add_log (msg : string) (st : session) : session :=
  Session (_sheet_data st) (_sheet_headers st) (api_values st) (fetches st)
    (writeouts st) (log st ++ [msg]).

(** A session before anything was fetched, against a sheet whose values the
    client reports as [values]. *)
Definition fresh (values : result (list row)) : session :=
  Session None None values 0 [] [].

(** A method: it runs on a session and leaves a result and a session. *)
Definition M (A : Type) : Type := session → result A * session.

Definition ret {A} (a : A) : M A := λ st, (Ok a, st).

Definition raise {A} (e : exn) : M A := λ st, (Err e, st).

Definition lift {A} (r : result A) : M A := λ st, (r, st).

Definition bind {A B} (m : M A) (k : A → M B) : M B :=
  λ st,
    match m st with
    | (Ok a, st') => k a st'
    | (Err e, st') => (Err e, st')
    end.

(** [try: m  except e: h] *)
Definition try_except {A} (m : M A) (e : exn) (h : M A) : M A :=
  λ st,
    match m st with
    | (Ok a, st') => (Ok a, st')
    | (Err e', st') => if decide (e' = e) then h st' else (Err e', st')
    end.

Definition modify (f : session → session) : M unit := λ st, (Ok tt, f st).

Notation "'let*' x ':=' m 'in' k" := (bind m (λ x, k))
  (at level 10, x pattern, m at level 100, k at level 200).

(** The same sequencing for code that does not touch the session. *)
Definition rbind {A B} (r : result A) (k : A → result B) : result B :=
  match r with
  | Ok a => k a
  | Err e => Err e
  end.

Notation "'let+' x ':=' r 'in' k" := (rbind r (λ x, k))
  (at level 10, x pattern, r at level 100, k at level 200).

(** ** [BaseGoogleSheetMixin] *)

(** [get_sheet_range]: ['!'.join([sheet_name, data_range])]. *)
Definition get_sheet_range (name range : string) : string :=
  name +:+ "!" +:+ range.

Definition sheet_range (c : config) : string :=
  get_sheet_range (sheet_name c) (data_range c).

(** The pattern of [sheet_range_rows]: capital letters, a group of one or
    more digits, a colon, capital letters, a group of digits that may be
    empty. *)
Definition row_pattern : Re.regex :=
  Re.Seq (Re.Plus is_upper)
    (Re.Seq (Re.Group (Re.Plus is_digit))
       (Re.Seq (Re.Chr ":")
          (Re.Seq (Re.Plus is_upper) (Re.Group (Re.Star is_digit))))).

(** The pattern of [sheet_range_cols]: a group of capital letters, digits
    that may be missing, a colon, a second group of capital letters, digits
    that may be missing. *)
Definition col_pattern : Re.regex :=
  Re.Seq (Re.Group (Re.Plus is_upper))
    (Re.Seq (Re.Star is_digit)
       (Re.Seq (Re.Chr ":")
          (Re.Seq (Re.Group (Re.Plus is_upper)) (Re.Star is_digit)))).

(** [m.groups()] on the result of [re.search], which is [None] when nothing
    matched. *)
Definition groups (m : option (list string)) : result (list string) :=
  match m with
  | Some gs => Ok gs
  | None => Err AttributeError
  end.

(** [start, end = gs]: unpacking into two names. *)
Definition unpack2 (gs : list string) : result (string * string) :=
  match gs with
  | [a; b] => Ok (a, b)
  | _ => Err ValueError
  end.

(** The property [sheet_range_rows], on the range string it searches. *)
Definition parse_row_bounds (range : string) (max_rows : Z) : result (Z * Z) :=
  let row_match := Re.search row_pattern range in
  let+ se :=
    match (let+ gs := groups row_match in unpack2 gs) with
    | Ok (s, e) => Ok (VStr s, VStr e)
    | Err ValueError =>
        let+ gs := groups row_match in
        let+ s := getitem gs 0 in
        Ok (VStr s, VInt max_rows)
    | Err e => Err e
    end in
  let e := if decide (se.2 = VStr "") then VInt max_rows else se.2 in
  let+ s' := int se.1 in
  let+ e' := int e in
  Ok (s', e').

Definition sheet_range_rows (c : config) : result (Z * Z) :=
  parse_row_bounds (sheet_range c) (max_rows c).

(** The property [sheet_range_cols], on the range string it searches. *)
Definition parse_col_bounds (range max_col : string) : result (string * string) :=
  let col_match := Re.search col_pattern range in
  match (let+ gs := groups col_match in unpack2 gs) with
  | Ok (s, e) => Ok (s, e)
  | Err ValueError =>
      let+ gs := groups col_match in
      let+ s := getitem gs 0 in
      Ok (s, max_col)
  | Err e => Err e
  end.

Definition sheet_range_cols (c : config) : result (string * string) :=
  parse_col_bounds (sheet_range c) (max_col c).

(** The property [sheet_data]: the cached rows, fetched on first use.  The
    assignment to [_sheet_data] precedes the subscript that raises on a
    sheet without rows. *)
Definition sheet_data (c : config) : M (list row) :=
  λ st,
    match _sheet_data st with
    | Some d => (Ok d, st)
    | None =>
        let st1 := count_fetch st in
        match api_values st1 with
        | Err e => (Err e, st1)
        | Ok values =>
            let st2 := set_sheet_data (Some values) st1 in
            match values with
            | [] => (Err IndexError, st2)
            | h :: rest =>
                (Ok rest, set_sheet_data (Some rest) (set_sheet_headers (Some h) st2))
            end
        end
    end.

(** [not self._sheet_headers]: [None] and the empty list are false. *)
Definition falsy (h : option row) : bool :=
  match h with
  | Some (_ :: _) => false
  | _ => true
  end.

(** The property [sheet_headers]. *)
Definition sheet_headers (c : config) : M (option row) :=
  let* _ := (λ st, if falsy (_sheet_headers st) then sheet_data c st
                   else (Ok [], st)) in
  λ st, (Ok (_sheet_headers st), st).

(** [column_index]: the header row is read once for the debug record and
    once for the lookup. *)
Definition column_index (c : config) (field_name : string) : M nat :=
  let* _ := sheet_headers c in
  let* h := sheet_headers c in
  match h with
  | Some hs => lift (index (VStr field_name) hs)
  | None => raise AttributeError
  end.

(** The loop of [existing_row] over [enumerate(self.sheet_data)]. *)
Fixpoint scan_rows (ix : nat) (model_id : value) (i : nat) (d : list row) :
    result (option nat) :=
  match d with
  | [] => Ok None
  | r :: d' =>
      let+ cell := getitem r ix in
      if decide (cell = model_id) then Ok (Some i)
      else scan_rows ix model_id (S i) d'
  end.

Definition existing_row (c : config) (data : dict) : M (option nat) :=
  let* model_id := lift (dict_item (model_id_field c) data) in
  let* sheet_id_ix := column_index c (sheet_id_field c) in
  let* d := sheet_data c in
  lift (scan_rows sheet_id_ix model_id 0 d).

(** ** [SheetPushableMixin] *)

(** [writeout]: one [batchUpdate] request for [range] with [data]. *)
Definition writeout (range : string) (data : list row) : M unit :=
  modify (add_writeout (range, data)).

(** The header under which [upsert_data] looks a field up: the model's
    identifier goes to the hidden identifier column. *)
Definition header_of (c : config) (field : string) : string :=
  if decide (field ≠ model_id_field c) then field else sheet_id_field c.

Definition skip_message (field : string) : string :=
  "skipping field " +:+ field +:+ " because it has no header".

(** The first loop of [upsert_data], over [data.keys()]. *)
Fixpoint field_indexes (c : config) (fields : list string)
    (acc : list (string * nat)) : M (list (string * nat)) :=
  match fields with
  | [] => ret acc
  | field :: fields' =>
      let* acc' :=
        try_except
          (let* ix := column_index c (header_of c field) in
           ret (acc ++ [(field, ix)]))
          ValueError
          (let* _ := modify (add_log (skip_message field)) in ret acc) in
      field_indexes c fields' acc'
  end.

(** The second loop of [upsert_data]: the values in column order. *)
Fixpoint row_values (data : dict) (fis : list (string * nat)) : result row :=
  match fis with
  | [] => Ok []
  | (field, _) :: fis' =>
      let+ v := dict_item field data in
      let+ vs := row_values data fis' in
      Ok (v :: vs)
  end.

(** [self.sheet_data[i] = r]: the list the property returns is the cached
    one, and it is changed in place. *)
Definition setitem (c : config) (i : nat) (r : row) : M unit :=
  let* d := sheet_data c in
  if decide (i < length d)%nat
  then modify (set_sheet_data (Some (<[i:=r]> d)))
  else raise IndexError.

(** [self.sheet_data.append(r)] *)
Definition append (c : config) (r : row) : M unit :=
  let* d := sheet_data c in
  modify (set_sheet_data (Some (d ++ [r]))).

Definition upsert_data (c : config) (data : dict) : M unit :=
  let* fis := field_indexes c (keys data) [] in
  let sorted_field_indexes := sorted_by_ix fis in
  let* row_data := lift (row_values data sorted_field_indexes) in
  let* existing_row_ix := existing_row c data in
  match existing_row_ix with
  | Some i => setitem c i row_data
  | None => append c row_data
  end.

(** [{f: getattr(obj, f) for f in get_push_fields()}] *)
Fixpoint push_data (obj : dict) (fields : list string) (acc : dict) : result dict :=
  match fields with
  | [] => Ok acc
  | f :: fields' =>
      let+ v := getattr obj f in
      push_data obj fields' (dict_set f v acc)
  end.

(** [i % n] *)
Definition py_mod (i n : Z) : result Z :=
  if n =? 0 then Err ZeroDivisionError else Ok (i mod n).

(** The range string [f'{cols_start}{row1}:{cols_end}{row2}'] under the sheet. *)
Definition range_string (c : config) (cols_start : string) (row1 : Z)
    (cols_end : string) (row2 : Z) : string :=
  get_sheet_range (sheet_name c)
    (cols_start +:+ pretty row1 +:+ ":" +:+ cols_end +:+ pretty row2).

(** The write-out inside the loop of [upsert_table], at index [i]. *)
Definition periodic_writeout (c : config) (cols_start cols_end : string)
    (rows_start i : Z) : M unit :=
  let writeout_range_start_row := (rows_start + 1) + i in
  let writeout_range_end_row := writeout_range_start_row + batch_size c in
  let writeout_range :=
    range_string c cols_start writeout_range_start_row
      cols_end writeout_range_end_row in
  let writeout_data_start_row := (rows_start - 1) + i in
  let writeout_data_end_row := writeout_data_start_row + batch_size c in
  let* d := sheet_data c in
  writeout writeout_range (slice d writeout_data_start_row writeout_data_end_row).

(** The head of the loop body: [if i > 0 and i % self.batch_size == 0],
    write out and set [last_writeout] to [i].  It returns [last_writeout]. *)
Definition writeout_if_due (c : config) (cols_start cols_end : string)
    (rows_start : Z) (i : nat) (last_writeout : Z) : M Z :=
  if 0 <? Z.of_nat i then
    let* m := lift (py_mod (Z.of_nat i) (batch_size c)) in
    if m =? 0 then
      let* _ :=
        periodic_writeout c cols_start cols_end rows_start (Z.of_nat i) in
      ret (Z.of_nat i)
    else ret last_writeout
  else ret last_writeout.

(** The loop of [upsert_table] over [enumerate(queryset)]; it returns
    [last_writeout]. *)
Fixpoint upsert_loop (c : config) (push_fields : list string)
    (cols_start cols_end : string) (rows_start : Z)
    (i : nat) (last_writeout : Z) (queryset : list dict) : M Z :=
  match queryset with
  | [] => ret last_writeout
  | obj :: queryset' =>
      let* last_writeout' :=
        writeout_if_due c cols_start cols_end rows_start i last_writeout in
      let* data := lift (push_data obj push_fields []) in
      let* _ := upsert_data c data in
      upsert_loop c push_fields cols_start cols_end rows_start (S i)
        last_writeout' queryset'
  end.

(** The write-out after the loop. *)
Definition final_writeout (c : config) (cols_start cols_end : string)
    (rows_end last_writeout : Z) : M unit :=
  let writeout_range :=
    range_string c cols_start (Z.max 2 last_writeout) cols_end rows_end in
  let* d := sheet_data c in
  writeout writeout_range (slice_from d last_writeout).

Definition finished_message : string := "FINISHED WITH TABLE UPSERT".

(** [upsert_table], for the queryset and the push fields the model class
    supplies. *)
Definition upsert_table (c : config) (push_fields : list string)
    (queryset : list dict) : M unit :=
  let* cols := lift (sheet_range_cols c) in
  let* rows := lift (sheet_range_rows c) in
  let* last_writeout :=
    upsert_loop c push_fields cols.1 cols.2 rows.1 0 0 queryset in
  let* _ :=
    if last_writeout <? Z.of_nat (length queryset)
    then final_writeout c cols.1 cols.2 rows.2 last_writeout
    else ret tt in
  modify (add_log finished_message).

(** ** Vocabulary of the statements *)

(** Every character of [s] is in the class. *)
Fixpoint all_chars (cls : ascii → bool) (s : string) : bool :=
  match s with
  | EmptyString => true
  | String c t => cls c && all_chars cls t
  end.

Definition nonempty (s : string) : bool :=
  match s with
  | EmptyString => false
  | String _ _ => true
  end.

Definition not_colon (c : ascii) : bool := negb (Ascii.eqb ":" c).

Definition not_digit (c : ascii) : bool := negb (is_digit c).

(** An ASCII character: on a text of these the classes of the patterns are
    exactly Python's. *)
Definition is_ascii_char (c : ascii) : bool := (N_of_ascii c <? 128)%N.

(** The number a string of decimal digits denotes. *)
Fixpoint decimal_from (acc : Z) (s : string) : Z :=
  match s with
  | EmptyString => acc
  | String c t => decimal_from (10 * acc + Z.of_N (N_of_ascii c - 48)) t
  end.

Definition decimal (s : string) : Z := decimal_from 0 s.

(** [v] does not start with a character of the class: a greedy repetition
    of the class stops in front of it. *)
Definition stops (cls : ascii → bool) (v : string) : Prop :=
  match v with
  | EmptyString => True
  | String c _ => cls c = false
  end.

(** The pattern cannot consume the character [c]. *)
Fixpoint avoids (c : ascii) (r : Re.regex) : bool :=
  match r with
  | Re.Chr c' => negb (Ascii.eqb c' c)
  | Re.Plus cls | Re.Star cls => negb (cls c)
  | Re.Group r' => avoids c r'
  | Re.Seq r1 r2 => avoids c r1 && avoids c r2
  end.

(** [x] is a text without colon, then the ['!'] that [get_sheet_range] puts
    after the sheet name, then [s]. *)
Definition guarded (s x : string) : Prop :=
  ∃ p, x = p +:+ String "!" s ∧ all_chars not_colon p = true.

(** The number of capturing groups of a pattern. *)
Fixpoint ngroups (r : Re.regex) : nat :=
  match r with
  | Re.Chr _ | Re.Plus _ | Re.Star _ => 0
  | Re.Group r' => S (ngroups r')
  | Re.Seq r1 r2 => ngroups r1 + ngroups r2
  end.

(** What stands in front of the range in the string a property searches:
    nothing, or a sheet name without colon and the ['!']. *)
Definition sheet_prefix (pre : string) : Prop :=
  pre = EmptyString ∨ ∃ name, pre = name +:+ "!" ∧ all_chars not_colon name = true.

(** The session with further records logged. *)
Definition with_log (l : list string) (st : session) : session :=
  Session (_sheet_data st) (_sheet_headers st) (api_values st) (fetches st)
    (writeouts st) (log st ++ l).

(** The column [upsert_data] finds for a field in the header row [hs]. *)
Definition resolve (c : config) (hs : row) (field : string) : option nat :=
  match index (VStr (header_of c field)) hs with
  | Ok ix => Some ix
  | Err _ => None
  end.

(** The fields that have a column, with it, and those that have none, in
    the order of the keyword arguments. *)
Fixpoint resolved (c : config) (hs : row) (fields : list string) :
    list (string * nat) :=
  match fields with
  | [] => []
  | f :: fields' =>
      match resolve c hs f with
      | Some ix => (f, ix) :: resolved c hs fields'
      | None => resolved c hs fields'
      end
  end.

Fixpoint skipped (c : config) (hs : row) (fields : list string) : list string :=
  match fields with
  | [] => []
  | f :: fields' =>
      match resolve c hs f with
      | Some _ => skipped c hs fields'
      | None => f :: skipped c hs fields'
      end
  end.

(** The fields of the row [upsert_data] builds, in column order, and the
    row: their values. *)
Definition row_fields (c : config) (hs : row) (data : dict) : list string :=
  map fst (sorted_by_ix (resolved c hs (keys data))).

Definition row_of (c : config) (hs : row) (data : dict) : row :=
  omap (λ f, dict_get f data) (row_fields c hs data).

(** What [existing_row] returns on a session that holds the header row [h]
    and the data rows [d]. *)
Definition lookup_row (c : config) (data : dict) (h : option row)
    (d : list row) : result (option nat) :=
  let+ model_id := dict_item (model_id_field c) data in
  let+ ix :=
    match h with
    | Some hs => index (VStr (sheet_id_field c)) hs
    | None => Err AttributeError
    end in
  scan_rows ix model_id 0 d.

(** The accesses of a session to its snapshot. *)
Inductive access : Set :=
| ReadHeaders
| ReadData
| ColumnIndex (field_name : string)
| ExistingRow (data : dict)
| UpsertData (data : dict).

Definition perform (c : config) (a : access) (st : session) : session :=
  match a with
  | ReadHeaders => (sheet_headers c st).2
  | ReadData => (sheet_data c st).2
  | ColumnIndex f => (column_index c f st).2
  | ExistingRow data => (existing_row c data st).2
  | UpsertData data => (upsert_data c data st).2
  end.

Definition perform_all (c : config) (l : list access) (st : session) : session :=
  foldl (λ st a, perform c a st) st l.

(** A session of one sheet, with header row [hs] and rows [rows]: nothing
    fetched yet, or the snapshot loaded by a single fetch. *)
Definition one_fetch (hs : row) (rows : list row) (st : session) : Prop :=
  api_values st = Ok (hs :: rows)
  ∧ ((_sheet_data st = None ∧ _sheet_headers st = None ∧ fetches st = 0%nat)
     ∨ ((∃ d, _sheet_data st = Some d) ∧ _sheet_headers st = Some hs
        ∧ fetches st = 1%nat)).

(** The snapshot of that sheet is loaded, by a single fetch. *)
Definition loaded (hs : row) (st : session) : Prop :=
  (∃ d, _sheet_data st = Some d) ∧ _sheet_headers st = Some hs
  ∧ fetches st = 1%nat.

(** A method keeps a property of the session, whatever it returns. *)
Definition preserves {A} (P : session → Prop) (m : M A) : Prop :=
  ∀ st, P st → P (m st).2.

(** The index of a write-out inside the loop: positive and a multiple of
    the batch size. *)
Definition due (c : config) (i : Z) : Prop :=
  0 < i ∧ batch_size c ≠ 0 ∧ i mod batch_size c = 0.

#[global] Instance due_dec (c : config) (i : Z) : Decision (due c i).
Proof. unfold due. apply _. Defined.

(** The indices among [i], ..., [i + n - 1] at which the loop writes out. *)
Definition due_indices (c : config) (i n : nat) : list Z :=
  filter (due c) (map Z.of_nat (seq i n)).

(** [lw] is [last_writeout] after a loop over [n] instances: the index of
    the last write-out inside the loop, or 0 when there was none. *)
Definition last_flush (c : config) (n lw : Z) : Prop :=
  (lw = 0 ∨ due c lw) ∧ 0 ≤ lw < n ∧ ∀ k, lw < k < n → ¬ due c k.

(** The header row in a sheet whose range starts at row 2. *)
Definition range_from_row_two : config :=
  {| sheet_name := "Sheet1";
     data_range := "A2:Z";
     model_id_field := "id";
     sheet_id_field := "Django GUID";
     batch_size := 500;
     max_rows := 30000;
     max_col := "Z" |}.

(** The scenarios of the specification: a sheet with the header row
    [Name], [Django GUID], and model instances with an [id] and a [Name]. *)
Definition name_id_headers : row := [VStr "Name"; VStr "Django GUID"].

Definition instance (id name : string) : dict :=
  [("id", VStr id); ("Name", VStr name)].

Definition alice_sheet : result (list row) :=
  Ok [name_id_headers; [VStr "Alice"; VStr "id-1"]].

Definition five_instances : list dict :=
  [instance "id-1" "Ann"; instance "id-2" "Bob"; instance "id-3" "Cid";
   instance "id-4" "Dee"; instance "id-5" "Eve"].

Definition batch_of_two : config :=
  {| sheet_name := "Sheet1";
     data_range := "A1:Z";
     model_id_field := "id";
     sheet_id_field := "Django GUID";
     batch_size := 2;
     max_rows := 30000;
     max_col := "Z" |}.

(** Every row of [d] before offset [k] has, in column [ix], a cell other
    than [v]. *)
Definition differs_before (ix : nat) (v : value) (d : list (list value))
    (k : nat) : Prop :=
  ∀ k' r', (k' < k)%nat → d !! k' = Some r' →
           ∃ cell, r' !! ix = Some cell ∧ cell ≠ v.

(** The instances upserted one after the other, with no write-out. *)
Fixpoint upsert_each (c : config) (push_fields : list string)
    (queryset : list (list (string * value))) : M unit :=
  match queryset with
  | [] => ret tt
  | obj :: queryset' =>
      let* data := lift (push_data obj push_fields []) in
      let* _ := upsert_data c data in
      upsert_each c push_fields queryset'
  end.

(** [w] is the write-out inside the loop at index [k] of a run over
    [queryset] from the session [st]: the range from row
    [rows_start + 1 + k] to row [rows_start + 1 + k + batch_size], with the
    slice from offset [rows_start - 1 + k] to offset
    [rows_start - 1 + k + batch_size] of the rows that are cached when the
    first [k] instances have been upserted. *)
Definition flush_at (c : config) (push_fields : list string)
    (queryset : list (list (string * value))) (st : session)
    (cols_start cols_end : string) (rows_start k : Z)
    (w : string * list (list value)) : Prop :=
  ∃ d : list (list value),
    _sheet_data (upsert_each c push_fields (take (Z.to_nat k) queryset) st).2
    = Some d
    ∧ w = (range_string c cols_start (rows_start + 1 + k)
             cols_end (rows_start + 1 + k + batch_size c),
           slice d (rows_start - 1 + k) (rows_start - 1 + k + batch_size c)).

(** Two sessions that differ at most in the write-outs sent. *)
Definition agree (st1 st2 : session) : Prop :=
  _sheet_data st1 = _sheet_data st2
  ∧ _sheet_headers st1 = _sheet_headers st2
  ∧ api_values st1 = api_values st2
  ∧ fetches st1 = fetches st2
  ∧ log st1 = log st2.

(** A method that neither reads nor needs the write-outs sent: on sessions
    that agree it returns the same and leaves sessions that agree. *)
Definition respects {A} (m : M A) : Prop :=
  ∀ st1 st2, agree st1 st2 →
             (m st1).1 = (m st2).1 ∧ agree (m st1).2 (m st2).2.

(** * Properties *)

(** ** Strings and character classes *)

Lemma append_cons (x : ascii) (a b : string) :
  String x a +:+ b = String x (a +:+ b).
Proof. reflexivity. Qed.

Lemma append_nil (b : string) : "" +:+ b = b.
Proof. reflexivity. Qed.

Lemma append_assoc (a b c : string) : (a +:+ b) +:+ c = a +:+ (b +:+ c).
Proof.
  induction a as [|x a IH]; [reflexivity|].
  rewrite !append_cons. now f_equal.
Qed.

Lemma append_empty_r (a : string) : a +:+ "" = a.
Proof.
  induction a as [|x a IH]; [reflexivity|].
  rewrite append_cons. now f_equal.
Qed.

Lemma digit_not_upper (c : ascii) : is_digit c = true → is_upper c = false.
Proof.
  unfold is_digit, is_upper. intros H.
  apply andb_prop in H as [H1 H2].
  apply N.leb_le in H1, H2.
  apply andb_false_iff. left. apply N.leb_gt. lia.
Qed.

Lemma stops_digits_upper (r rest : string) :
  all_chars is_digit r = true → nonempty r = true → stops is_upper (r +:+ rest).
Proof.
  destruct r as [|c r]; simpl; [discriminate|].
  intros H _. rewrite ?append_cons. simpl.
  apply andb_prop in H as [H _]. now apply digit_not_upper.
Qed.

Lemma stops_digits_or_end_upper (r : string) :
  all_chars is_digit r = true → stops is_upper r.
Proof.
  destruct r as [|c r]; simpl; [trivial|].
  intros H. apply andb_prop in H as [H _]. now apply digit_not_upper.
Qed.

Lemma digits_value_decimal (s : string) (acc : Z) :
  all_chars is_digit s = true → digits_value acc s = Some (decimal_from acc s).
Proof.
  revert acc. induction s as [|c s IH]; simpl; intros acc H; [reflexivity|].
  apply andb_prop in H as [Hc Hs]. rewrite Hc. now apply IH.
Qed.

Lemma int_digits (s : string) :
  all_chars is_digit s = true → nonempty s = true →
  int (VStr s) = Ok (decimal s).
Proof.
  intros Hd Hn. destruct s as [|c s]; [discriminate|].
  unfold int. now rewrite (digits_value_decimal _ 0 Hd).
Qed.

(** ** The matcher *)

(** A greedy repetition takes a whole run of its class first. *)
Lemma rep_run (cls : ascii → bool) (u v : string) :
  all_chars cls u = true → stops cls v →
  ∃ tl, Re.rep cls (u +:+ v) = (u, v) :: tl.
Proof.
  intros Hu Hv. induction u as [|a u IH]; simpl in *.
  - rewrite ?append_nil.
    destruct v as [|c v]; simpl in *; [eauto|]. rewrite Hv. eauto.
  - apply andb_prop in Hu as [Ha Hu]. rewrite ?append_cons. simpl. rewrite Ha.
    destruct (IH Hu) as [tl ->]. simpl. eauto.
Qed.

Lemma matches_plus_run (cls : ascii → bool) (u v : string) :
  all_chars cls u = true → nonempty u = true → stops cls v →
  ∃ tl, Re.matches (Re.Plus cls) (u +:+ v) = (u, [], v) :: tl.
Proof.
  intros Hu Hn Hv. destruct u as [|a u]; [discriminate|]. simpl in *.
  apply andb_prop in Hu as [Ha Hu]. rewrite ?append_cons. simpl. rewrite Ha.
  destruct (rep_run cls u v Hu Hv) as [tl ->]. simpl. eauto.
Qed.

Lemma matches_star_run (cls : ascii → bool) (u v : string) :
  all_chars cls u = true → stops cls v →
  ∃ tl, Re.matches (Re.Star cls) (u +:+ v) = (u, [], v) :: tl.
Proof.
  intros Hu Hv. simpl.
  destruct (rep_run cls u v Hu Hv) as [tl ->]. simpl. eauto.
Qed.

Lemma matches_group_head (r : Re.regex) (s : string) (w : Re.way) tl :
  Re.matches r s = w :: tl →
  ∃ tl', Re.matches (Re.Group r) s = (w.1.1, w.1.1 :: w.1.2, w.2) :: tl'.
Proof. intros H. simpl. rewrite H. simpl. eauto. Qed.

Lemma matches_seq_head (r1 r2 : Re.regex) (s : string) (w1 w2 : Re.way) tl1 tl2 :
  Re.matches r1 s = w1 :: tl1 →
  Re.matches r2 w1.2 = w2 :: tl2 →
  ∃ tl, Re.matches (Re.Seq r1 r2) s
        = (w1.1.1 +:+ w2.1.1, w1.1.2 ++ w2.1.2, w2.2) :: tl.
Proof. intros H1 H2. simpl. rewrite H1. simpl. rewrite H2. simpl. eauto. Qed.

Lemma matches_chr_head (c : ascii) (t : string) :
  Re.matches (Re.Chr c) (String c t) = [(String c EmptyString, [], t)].
Proof. simpl. now rewrite Ascii.eqb_refl. Qed.

Lemma matches_chr_other (c a : ascii) (t : string) :
  Ascii.eqb c a = false → Re.matches (Re.Chr c) (String a t) = [].
Proof. intros H. simpl. now rewrite H. Qed.

Lemma matches_seq_first_nil (r1 r2 : Re.regex) (x : string) :
  Re.matches r1 x = [] → Re.matches (Re.Seq r1 r2) x = [].
Proof. intros H. simpl. now rewrite H. Qed.

Lemma search_head (r : Re.regex) (s : string) (w : Re.way) tl :
  Re.matches r s = w :: tl → Re.search r s = Some w.1.2.
Proof. intros H. destruct s; simpl; now rewrite H. Qed.

(** What a match leaves behind: a property of the subject that survives
    the removal of a first character the pattern can consume holds of
    everything a match leaves. *)
Section Rests.

Variable P : string → Prop.

Lemma rep_rests (cls : ascii → bool) (x : string) :
  (∀ a t, P (String a t) → cls a = true → P t) →
  P x → Forall (λ m, P m.2) (Re.rep cls x).
Proof.
  intros Hstep. induction x as [|a x IH]; intros Hx; simpl.
  - now constructor.
  - destruct (cls a) eqn:Ha.
    + apply Forall_app. split; [|now repeat constructor].
      apply List.Forall_map. simpl. apply IH. eauto.
    + now repeat constructor.
Qed.

Lemma matches_rests (r : Re.regex) :
  ∀ x, (∀ a t, P (String a t) → avoids a r = false → P t) →
       P x → Forall (λ w, P w.2) (Re.matches r x).
Proof.
  induction r as [c|cls|cls|r IH|r1 IH1 r2 IH2]; intros x Hstep Hx; simpl in *.
  - destruct x as [|a x]; [constructor|].
    destruct (Ascii.eqb c a) eqn:E; [|constructor].
    repeat constructor. simpl. apply (Hstep a x Hx). now rewrite E.
  - destruct x as [|a x]; [constructor|].
    destruct (cls a) eqn:Ha; [|constructor].
    apply List.Forall_map. simpl.
    apply rep_rests.
    + intros b t Hb Hcb. apply (Hstep b t Hb). now rewrite Hcb.
    + apply (Hstep a x Hx). now rewrite Ha.
  - apply List.Forall_map. simpl. apply rep_rests; [|assumption].
    intros b t Hb Hcb. apply (Hstep b t Hb). now rewrite Hcb.
  - apply List.Forall_map. simpl. apply IH; assumption.
  - apply Forall_bind.
    assert (H1 : Forall (λ w, P w.2) (Re.matches r1 x)).
    { apply IH1; [|assumption]. intros a t Ha Hav. apply (Hstep a t Ha).
      now rewrite Hav. }
    eapply Forall_impl; [exact H1|]. intros w1 Hw1. simpl.
    apply List.Forall_map. simpl. apply IH2; [|assumption].
    intros a t Ha Hav. apply (Hstep a t Ha). rewrite Hav. apply andb_false_r.
Qed.

(** A sequence fails where its second part fails on whatever the first
    part leaves. *)
Lemma matches_seq_nil (r1 r2 : Re.regex) (x : string) :
  (∀ a t, P (String a t) → avoids a r1 = false → P t) →
  (∀ y, P y → Re.matches r2 y = []) →
  P x → Re.matches (Re.Seq r1 r2) x = [].
Proof.
  intros Hstep Hnil Hx. simpl.
  pose proof (matches_rests r1 x Hstep Hx) as H1.
  induction H1 as [|w1 l Hw1 _ IH]; [reflexivity|].
  simpl. rewrite (Hnil _ Hw1). simpl. exact IH.
Qed.

Lemma search_none (r : Re.regex) (s : string) :
  (∀ a t, P (String a t) → P t) →
  (∀ y, P y → Re.matches r y = []) →
  P s → Re.search r s = None.
Proof.
  intros Htl Hnil. induction s as [|a s IH]; intros Hs; simpl.
  - now rewrite (Hnil _ Hs).
  - rewrite (Hnil _ Hs). apply IH. eauto.
Qed.

End Rests.

(** ** The sheet name in front of the range *)

Lemma guarded_step (r : Re.regex) (s : string) :
  avoids "!" r = true →
  ∀ a t, guarded s (String a t) → avoids a r = false → guarded s t.
Proof.
  intros Hav a t [p [E Hp]] Ha. destruct p as [|b p].
  - rewrite append_nil in E. injection E as -> _. congruence.
  - rewrite append_cons in E. injection E as -> ->.
    simpl in Hp. apply andb_prop in Hp as [_ Hp]. now exists p.
Qed.

Lemma guarded_colon_nil (r : Re.regex) (s x : string) :
  guarded s x → Re.matches (Re.Seq (Re.Chr ":") r) x = [].
Proof.
  intros [p [-> Hp]]. apply matches_seq_first_nil. destruct p as [|b p].
  - reflexivity.
  - rewrite append_cons. apply matches_chr_other.
    simpl in Hp. apply andb_prop in Hp as [Hb _].
    unfold not_colon in Hb. now apply negb_true_iff in Hb.
Qed.

Lemma row_pattern_guarded (s x : string) :
  guarded s x → Re.matches row_pattern x = [].
Proof.
  intros Hx. unfold row_pattern.
  apply (matches_seq_nil (guarded s)); [now apply guarded_step| |exact Hx].
  intros y Hy.
  apply (matches_seq_nil (guarded s)); [now apply guarded_step| |exact Hy].
  intros z Hz. now apply guarded_colon_nil with s.
Qed.

Lemma col_pattern_guarded (s x : string) :
  guarded s x → Re.matches col_pattern x = [].
Proof.
  intros Hx. unfold col_pattern.
  apply (matches_seq_nil (guarded s)); [now apply guarded_step| |exact Hx].
  intros y Hy.
  apply (matches_seq_nil (guarded s)); [now apply guarded_step| |exact Hy].
  intros z Hz. now apply guarded_colon_nil with s.
Qed.

(** The search does not start inside a sheet name without colon. *)
Lemma search_sheet_range (r : Re.regex) (name range : string) :
  (∀ x, guarded range x → Re.matches r x = []) →
  all_chars not_colon name = true →
  Re.search r (get_sheet_range name range) = Re.search r range.
Proof.
  intros Hnil. unfold get_sheet_range.
  change ("!" +:+ range) with (String "!" range).
  induction name as [|a name IH]; intros Hn.
  - rewrite append_nil. simpl. rewrite Hnil; [reflexivity|]. now exists "".
  - rewrite append_cons. simpl.
    rewrite Hnil; [|exists (String a name); now rewrite append_cons].
    apply IH. simpl in Hn. now apply andb_prop in Hn as [_ Hn].
Qed.

(** ** Range strings *)

(** On [COLS ROW : COLS ROW], with the last row number possibly missing, the
    first way the row pattern matches captures the two row numbers. *)
Lemma row_pattern_head (cols1 row1 cols2 row2 : string) :
  all_chars is_upper cols1 = true → nonempty cols1 = true →
  all_chars is_digit row1 = true → nonempty row1 = true →
  all_chars is_upper cols2 = true → nonempty cols2 = true →
  all_chars is_digit row2 = true →
  Re.search row_pattern (cols1 +:+ row1 +:+ ":" +:+ cols2 +:+ row2)
  = Some [row1; row2].
Proof.
  intros Hc1 Nc1 Hr1 Nr1 Hc2 Nc2 Hr2.
  destruct (matches_plus_run is_upper cols1 (row1 +:+ ":" +:+ cols2 +:+ row2))
    as [t1 E1]; [assumption..|now apply stops_digits_upper|].
  destruct (matches_plus_run is_digit row1 (":" +:+ cols2 +:+ row2))
    as [t2 E2]; [assumption..|reflexivity|].
  apply (matches_group_head (Re.Plus is_digit)) in E2 as [t2' E2].
  pose proof (matches_chr_head ":" (cols2 +:+ row2)) as E3.
  destruct (matches_plus_run is_upper cols2 row2)
    as [t4 E4]; [assumption..|now apply stops_digits_or_end_upper|].
  destruct (matches_star_run is_digit row2 "") as [t5 E5]; [assumption|exact I|].
  rewrite append_empty_r in E5.
  apply (matches_group_head (Re.Star is_digit)) in E5 as [t5' E5].
  destruct (matches_seq_head _ _ _ _ _ _ _ E4 E5) as [t6 E6].
  destruct (matches_seq_head _ _ _ _ _ _ _ E3 E6) as [t7 E7].
  destruct (matches_seq_head _ _ _ _ _ _ _ E2 E7) as [t8 E8].
  destruct (matches_seq_head _ _ _ _ _ _ _ E1 E8) as [t9 E9].
  fold row_pattern in E9. now rewrite (search_head _ _ _ _ E9).
Qed.

Lemma row_pattern_no_digit (x : string) :
  all_chars not_digit x = true → Re.matches row_pattern x = [].
Proof.
  intros Hx. unfold row_pattern.
  apply (matches_seq_nil (λ y, all_chars not_digit y = true)); [| |exact Hx].
  - intros a t H _. simpl in H. now apply andb_prop in H as [_ H].
  - intros y Hy. simpl. destruct y as [|a y]; [reflexivity|].
    simpl in Hy. apply andb_prop in Hy as [Ha _].
    unfold not_digit in Ha. apply negb_true_iff in Ha. now rewrite Ha.
Qed.

Lemma search_prefix (r : Re.regex) (pre range : string) :
  (∀ x, guarded range x → Re.matches r x = []) →
  sheet_prefix pre →
  Re.search r (pre +:+ range) = Re.search r range.
Proof.
  intros Hnil [->|[name [-> Hname]]]; [reflexivity|].
  rewrite append_assoc. now apply search_sheet_range.
Qed.

Lemma parse_row_bounds_groups (s start stop : string) (m : Z) :
  Re.search row_pattern s = Some [start; stop] →
  parse_row_bounds s m =
    (let+ s' := int (VStr start) in
     let+ e' := int (if decide (VStr stop = VStr "") then VInt m else VStr stop) in
     Ok (s', e')).
Proof. intros H. unfold parse_row_bounds. now rewrite H. Qed.

(** C4. [sheet_range_rows] searches the range, alone or behind a sheet name
    without colon.  On [COLS ROW : COLS ROW] it returns the two row numbers;
    on [COLS ROW : COLS], where the last row number is missing, it returns
    the first row number and [max_rows]; on an ASCII range without any
    digit it raises: the search finds nothing and [groups] is asked of
    [None]. *)
Theorem sheet_range_rows_bounds (pre cols1 row1 cols2 : string) (m : Z) :
  sheet_prefix pre →
  all_chars is_upper cols1 = true → nonempty cols1 = true →
  all_chars is_digit row1 = true → nonempty row1 = true →
  all_chars is_upper cols2 = true → nonempty cols2 = true →
  (∀ row2, all_chars is_digit row2 = true → nonempty row2 = true →
     parse_row_bounds (pre +:+ cols1 +:+ row1 +:+ ":" +:+ cols2 +:+ row2) m
     = Ok (decimal row1, decimal row2))
  ∧ parse_row_bounds (pre +:+ cols1 +:+ row1 +:+ ":" +:+ cols2) m
    = Ok (decimal row1, m)
  ∧ (∀ range, all_chars is_ascii_char range = true →
       all_chars not_digit range = true →
       parse_row_bounds (pre +:+ range) m = Err AttributeError).
Proof.
  intros Hpre Hc1 Nc1 Hr1 Nr1 Hc2 Nc2. split; [|split].
  - intros row2 Hr2 Nr2.
    rewrite (parse_row_bounds_groups _ row1 row2).
    + rewrite (int_digits row1 Hr1 Nr1). simpl.
      destruct (decide (VStr row2 = VStr "")) as [E|_].
      * injection E as ->. discriminate.
      * now rewrite (int_digits row2 Hr2 Nr2).
    + rewrite (search_prefix _ _ _ (row_pattern_guarded _) Hpre).
      now apply row_pattern_head.
  - rewrite (parse_row_bounds_groups _ row1 "").
    + now rewrite (int_digits row1 Hr1 Nr1).
    + rewrite (search_prefix _ _ _ (row_pattern_guarded _) Hpre).
      rewrite <- (append_empty_r cols2) at 1.
      now apply row_pattern_head.
  - intros range _ Hrange. unfold parse_row_bounds.
    rewrite (search_prefix _ _ _ (row_pattern_guarded _) Hpre).
    rewrite (search_none (λ y, all_chars not_digit y = true)); [reflexivity| | |exact Hrange].
    + intros a t H. simpl in H. now apply andb_prop in H as [_ H].
    + apply row_pattern_no_digit.
Qed.

Lemma sheet_range_rows_bounds_witness :
  sheet_range_rows
    (Config "Sheet1" "A2:C10" "id" "Django GUID" 500 30000 "Z") = Ok (2, 10)
  ∧ sheet_range_rows
      (Config "Sheet1" "A2:C" "id" "Django GUID" 500 30000 "Z") = Ok (2, 30000)
  ∧ sheet_range_rows
      (Config "Sheet1" "A:C" "id" "Django GUID" 500 30000 "Z") = Err AttributeError.
Proof.
  assert (Hpre : sheet_prefix "Sheet1!").
  { right. exists "Sheet1". split; reflexivity. }
  destruct (sheet_range_rows_bounds "Sheet1!" "A" "2" "C" 30000 Hpre
              eq_refl eq_refl eq_refl eq_refl eq_refl eq_refl) as [H1 [H2 H3]].
  split; [|split].
  - exact (H1 "10" eq_refl eq_refl).
  - exact H2.
  - exact (H3 "A:C" eq_refl eq_refl).
Defined.

(** C6. [get_sheet_range] joins the default sheet name and range into
    [Sheet1!A1:Z], and the two properties read the bounds back from that
    string: rows 1 to [max_rows], columns [A] to [Z]. *)
Theorem get_sheet_range_round_trip (m : Z) (mc : string) :
  get_sheet_range "Sheet1" "A1:Z" = "Sheet1!A1:Z"
  ∧ parse_row_bounds (get_sheet_range "Sheet1" "A1:Z") m = Ok (1, m)
  ∧ parse_col_bounds (get_sheet_range "Sheet1" "A1:Z") mc = Ok ("A", "Z")
  ∧ sheet_range default_config = "Sheet1!A1:Z"
  ∧ sheet_range_rows default_config = Ok (1, 30000)
  ∧ sheet_range_cols default_config = Ok ("A", "Z").
Proof. repeat split; reflexivity. Qed.

(** ** The number of groups *)

Lemma matches_ngroups (r : Re.regex) :
  ∀ x, Forall (λ w, length w.1.2 = ngroups r) (Re.matches r x).
Proof.
  induction r as [c|cls|cls|r IH|r1 IH1 r2 IH2]; intros x; simpl.
  - destruct x as [|a x]; [constructor|].
    destruct (Ascii.eqb c a); repeat constructor.
  - destruct x as [|a x]; [constructor|].
    destruct (cls a); [|constructor].
    apply List.Forall_map. now apply Forall_forall.
  - apply List.Forall_map. now apply Forall_forall.
  - apply List.Forall_map. eapply Forall_impl; [apply IH|].
    intros w Hw. simpl. now rewrite Hw.
  - apply Forall_bind. eapply Forall_impl; [apply IH1|].
    intros w1 Hw1. simpl. apply List.Forall_map.
    eapply Forall_impl; [apply IH2|].
    intros w2 Hw2. simpl. rewrite length_app. now rewrite Hw1, Hw2.
Qed.

Lemma search_ngroups (r : Re.regex) (s : string) (gs : list string) :
  Re.search r s = Some gs → length gs = ngroups r.
Proof.
  induction s as [|a s IH]; simpl.
  - pose proof (matches_ngroups r "") as H.
    destruct (Re.matches r "") as [|w l]; [discriminate|].
    intros [= <-]. now inversion H.
  - pose proof (matches_ngroups r (String a s)) as H.
    destruct (Re.matches r (String a s)) as [|w l]; [exact IH|].
    intros [= <-]. now inversion H.
Qed.

(** C5. [sheet_range_cols] returns the two groups of capital letters, and
    raises when the pattern matches nowhere.  It never returns [max_col]:
    a match always carries two groups, so the unpacking cannot fail and the
    handler that would substitute [max_col] is never entered.  A range
    whose last column is missing, such as [B1:], makes the search fail, and
    the property raises instead of returning [("B", max_col)]. *)
Theorem sheet_range_cols_never_defaults (s mc : string) :
  parse_col_bounds s mc
  = match Re.search col_pattern s with
    | Some [a; b] => Ok (a, b)
    | _ => Err AttributeError
    end
  ∧ parse_col_bounds "Sheet1!B1:D1" mc = Ok ("B", "D")
  ∧ parse_col_bounds "Sheet1!B1:" mc = Err AttributeError
  ∧ parse_col_bounds "Sheet1!B1" mc = Err AttributeError.
Proof.
  split; [|repeat split; reflexivity].
  unfold parse_col_bounds.
  destruct (Re.search col_pattern s) as [gs|] eqn:E; [|reflexivity].
  apply search_ngroups in E. simpl in E.
  destruct gs as [|a [|b [|? ?]]]; try discriminate. reflexivity.
Qed.

(** ** The batched upsert on a sheet that holds only the header row *)

(** C1. Five new instances, batch size 2, a sheet with only its header row.
    Three write-outs are sent, but the two inside the loop carry no row: at
    index [i] the loop writes out the slice of the cache from [i] on, whose
    rows are only upserted by later iterations.  The ranges are
    [A4:Z6] and [A6:Z8], then [A4:Z30000] with the fifth row. *)
Theorem upsert_table_five_by_two :
  let st := (upsert_table batch_of_two ["id"; "Name"] five_instances
               (fresh (Ok [name_id_headers]))).2 in
  writeouts st
  = [("Sheet1!A4:Z6", []);
     ("Sheet1!A6:Z8", []);
     ("Sheet1!A4:Z30000", [[VStr "Eve"; VStr "id-5"]])]
  ∧ _sheet_data st
    = Some [[VStr "Ann"; VStr "id-1"]; [VStr "Bob"; VStr "id-2"];
            [VStr "Cid"; VStr "id-3"]; [VStr "Dee"; VStr "id-4"];
            [VStr "Eve"; VStr "id-5"]].
Proof. vm_compute. split; reflexivity. Qed.

(** ** Rows built for a header row with a column that is not pushed *)

(** C9. With the header row [Name], [Age], [Django GUID] and the pushed
    fields [id] and [Name], the row built has two cells: the identifier is
    at offset 1, while [column_index] gives 2 for its column.  The row has
    no cell at that offset, and the next upsert raises [IndexError] when
    [existing_row] subscripts it. *)
Theorem upsert_data_row_not_aligned :
  let headers := [VStr "Name"; VStr "Age"; VStr "Django GUID"] in
  let st := (upsert_data default_config (instance "id-2" "Bob")
               (fresh (Ok [headers]))).2 in
  _sheet_data st = Some [[VStr "Bob"; VStr "id-2"]]
  ∧ (column_index default_config "Django GUID" st).1 = Ok 2%nat
  ∧ [VStr "Bob"; VStr "id-2"] !! 2%nat = None
  ∧ (upsert_data default_config (instance "id-3" "Cid") st).1 = Err IndexError.
Proof. vm_compute. repeat split; reflexivity. Qed.

(** ** Sequencing *)

Lemma bind_ok {A B} (m : M A) (k : A → M B) st a st' :
  m st = (Ok a, st') → bind m k st = k a st'.
Proof. intros H. unfold bind. now rewrite H. Qed.

Lemma bind_err {A B} (m : M A) (k : A → M B) st e st' :
  m st = (Err e, st') → bind m k st = (Err e, st').
Proof. intros H. unfold bind. now rewrite H. Qed.

Lemma with_log_nil (st : session) : with_log [] st = st.
Proof. destruct st. unfold with_log. simpl. now rewrite app_nil_r. Qed.

Lemma with_log_add_log (m : string) (l : list string) (st : session) :
  with_log l (add_log m st) = with_log (m :: l) st.
Proof. unfold with_log, add_log. simpl. now rewrite <- app_assoc. Qed.

Section Preservation.

Variable P : session → Prop.

Lemma preserves_ret {A} (a : A) : preserves P (ret a).
Proof. now intros st H. Qed.

Lemma preserves_raise {A} (e : exn) : preserves P (@raise A e).
Proof. now intros st H. Qed.

Lemma preserves_lift {A} (r : result A) : preserves P (lift r).
Proof. now intros st H. Qed.

Lemma preserves_bind {A B} (m : M A) (k : A → M B) :
  preserves P m → (∀ a, preserves P (k a)) → preserves P (bind m k).
Proof.
  intros Hm Hk st H. unfold bind. specialize (Hm st H).
  destruct (m st) as [[a|e] st']; simpl in *; [now apply Hk|assumption].
Qed.

Lemma preserves_try_except {A} (m h : M A) (e : exn) :
  preserves P m → preserves P h → preserves P (try_except m e h).
Proof.
  intros Hm Hh st H. unfold try_except. specialize (Hm st H).
  destruct (m st) as [[a|e'] st']; simpl in *; [assumption|].
  destruct (decide (e' = e)); [now apply Hh|assumption].
Qed.

End Preservation.

(** ** The snapshot once it is cached *)

Lemma sheet_data_cached (c : config) (st : session) (d : list row) :
  _sheet_data st = Some d → sheet_data c st = (Ok d, st).
Proof. intros H. unfold sheet_data. now rewrite H. Qed.

Lemma sheet_data_ok (c : config) st d st' :
  sheet_data c st = (Ok d, st') → _sheet_data st' = Some d.
Proof.
  unfold sheet_data. destruct (_sheet_data st) as [d0|] eqn:Hd.
  - intros [= <- <-]. exact Hd.
  - destruct (api_values (count_fetch st)) as [[|h rest]|e]; try discriminate.
    now intros [= <- <-].
Qed.

Lemma sheet_headers_cached (c : config) (st : session) (d : list row) :
  _sheet_data st = Some d → sheet_headers c st = (Ok (_sheet_headers st), st).
Proof.
  intros H. unfold sheet_headers, bind.
  destruct (falsy (_sheet_headers st)); [|reflexivity].
  now rewrite (sheet_data_cached c st d H).
Qed.

Lemma column_index_cached (c : config) (f : string) (st : session) (d : list row) :
  _sheet_data st = Some d →
  column_index c f st
  = (match _sheet_headers st with
     | Some hs => index (VStr f) hs
     | None => Err AttributeError
     end, st).
Proof.
  intros H. unfold column_index.
  rewrite (bind_ok _ _ _ _ _ (sheet_headers_cached c st d H)).
  rewrite (bind_ok _ _ _ _ _ (sheet_headers_cached c st d H)).
  now destruct (_sheet_headers st).
Qed.

Lemma existing_row_cached (c : config) (data : dict) (st : session) (d : list row) :
  _sheet_data st = Some d →
  existing_row c data st = (lookup_row c data (_sheet_headers st) d, st).
Proof.
  intros H. unfold existing_row, lookup_row.
  destruct (dict_item (model_id_field c) data) as [v|e] eqn:Ev.
  2:{ now rewrite (bind_err _ _ st e st) by reflexivity. }
  rewrite (bind_ok _ _ st v st) by reflexivity.
  unfold bind at 1. rewrite (column_index_cached c _ st d H).
  simpl. destruct (_sheet_headers st) as [hs|]; [|reflexivity].
  destruct (index (VStr (sheet_id_field c)) hs) as [ix|e]; [|reflexivity].
  rewrite (bind_ok _ _ _ _ _ (sheet_data_cached c st d H)). reflexivity.
Qed.

(** ** [existing_row] *)

(** C10. Without the identifier field in the data, [existing_row] raises
    [KeyError] and the session is as before.  Whatever it returns, a cached
    snapshot is left as it is: the session after the call is the session
    before it.  On a session that has nothing cached yet, the only effect it
    can have is the fetch of [sheet_data]. *)
Theorem existing_row_keeps_snapshot (c : config) (data : dict) (st : session) :
  (dict_get (model_id_field c) data = None →
     existing_row c data st = (Err KeyError, st))
  ∧ (∀ d, _sheet_data st = Some d →
       (existing_row c data st).2 = st
       ∧ _sheet_data (existing_row c data st).2 = Some d
       ∧ _sheet_headers (existing_row c data st).2 = _sheet_headers st)
  ∧ ((existing_row c data st).2 = st
     ∨ (existing_row c data st).2 = (sheet_data c st).2).
Proof.
  split; [|split].
  - intros H. unfold existing_row, dict_item. now rewrite H.
  - intros d H. rewrite (existing_row_cached c data st d H). simpl. auto.
  - destruct (_sheet_data st) as [d|] eqn:Hd.
    { left. now rewrite (existing_row_cached c data st d Hd). }
    unfold existing_row, column_index, sheet_headers, sheet_data, bind, lift, raise.
    destruct (dict_item (model_id_field c) data) as [v|e]; [|now left].
    destruct st as [sd sh av n w l]. simpl in Hd. subst sd. simpl.
    destruct sh as [[|x hs]|]; simpl.
    + right. destruct av as [[|[|y h] rest]|e]; simpl; try reflexivity.
      now destruct (index _ (y :: h)).
    + destruct (index _ (x :: hs)); simpl; [|now left].
      right. now destruct av as [[|h rest]|e].
    + right. destruct av as [[|[|y h] rest]|e]; simpl; try reflexivity.
      now destruct (index _ (y :: h)).
Qed.

(** ** Properties of the session that every access keeps *)

Section Kept.

Variable c : config.
Variable P : session → Prop.
Hypothesis sheet_data_kept : preserves P (sheet_data c).
Hypothesis setitem_kept : ∀ i r, preserves P (setitem c i r).
Hypothesis append_kept : ∀ r, preserves P (append c r).
Hypothesis add_log_kept : ∀ m, preserves P (modify (add_log m)).

Lemma sheet_headers_kept : preserves P (sheet_headers c).
Proof.
  unfold sheet_headers. apply preserves_bind.
  - intros st H. destruct (falsy (_sheet_headers st)); [now apply sheet_data_kept|exact H].
  - intros _ st H. exact H.
Qed.

Lemma column_index_kept (f : string) : preserves P (column_index c f).
Proof.
  unfold column_index.
  apply preserves_bind; [apply sheet_headers_kept|]. intros _.
  apply preserves_bind; [apply sheet_headers_kept|]. intros [hs|].
  - apply preserves_lift.
  - apply preserves_raise.
Qed.

Lemma existing_row_kept (data : dict) : preserves P (existing_row c data).
Proof.
  unfold existing_row.
  apply preserves_bind; [apply preserves_lift|]. intros v.
  apply preserves_bind; [apply column_index_kept|]. intros ix.
  apply preserves_bind; [apply sheet_data_kept|]. intros d.
  apply preserves_lift.
Qed.

Lemma field_indexes_kept (fields : list string) :
  ∀ acc, preserves P (field_indexes c fields acc).
Proof.
  induction fields as [|f fields IH]; intros acc; simpl.
  - apply preserves_ret.
  - apply preserves_bind; [|exact IH].
    apply preserves_try_except.
    + apply preserves_bind; [apply column_index_kept|].
      intros ix. apply preserves_ret.
    + apply preserves_bind; [apply add_log_kept|].
      intros _. apply preserves_ret.
Qed.

Lemma upsert_data_kept (data : dict) : preserves P (upsert_data c data).
Proof.
  unfold upsert_data.
  apply preserves_bind; [apply field_indexes_kept|]. intros fis.
  apply preserves_bind; [apply preserves_lift|]. intros r.
  apply preserves_bind; [apply existing_row_kept|]. intros [i|].
  - apply setitem_kept.
  - apply append_kept.
Qed.

Lemma perform_kept (a : access) (st : session) : P st → P (perform c a st).
Proof.
  destruct a; simpl.
  - apply sheet_headers_kept.
  - apply sheet_data_kept.
  - apply column_index_kept.
  - apply existing_row_kept.
  - apply upsert_data_kept.
Qed.

Lemma perform_all_kept (l : list access) (st : session) :
  P st → P (perform_all c l st).
Proof.
  revert st. induction l as [|a l IH]; intros st H; simpl; [exact H|].
  apply IH. now apply perform_kept.
Qed.

End Kept.

(** ** One fetch per session *)

Section One_fetch.

Variable c : config.
Variable hs : row.
Variable rows : list row.

Lemma sheet_data_one_fetch : preserves (one_fetch hs rows) (sheet_data c).
Proof.
  intros st [Hapi [[Hd [Hh Hn]]|[[d Hd] [Hh Hn]]]].
  - unfold sheet_data. rewrite Hd.
    destruct st as [sd sh av n w l]. simpl in *. subst. simpl.
    split; [reflexivity|]. right. simpl. eauto.
  - rewrite (sheet_data_cached c st d Hd). simpl.
    split; [assumption|]. right. eauto.
Qed.

(** Replacing the cached rows keeps the property on a session in which
    [sheet_data] has just returned them. *)
Lemma set_rows_one_fetch (d d' : list row) (st : session) :
  one_fetch hs rows st → _sheet_data st = Some d →
  one_fetch hs rows (set_sheet_data (Some d') st).
Proof.
  intros [Hapi [[Hd' _]|[_ [Hh Hn]]]] Hd; [congruence|].
  split; [assumption|]. right. simpl. eauto.
Qed.

Lemma setitem_one_fetch i r : preserves (one_fetch hs rows) (setitem c i r).
Proof.
  intros st Hst. unfold setitem, bind.
  pose proof (sheet_data_one_fetch st Hst) as H1.
  destruct (sheet_data c st) as [[d|e] st1] eqn:E; [|exact H1].
  apply sheet_data_ok in E. simpl in H1.
  destruct (decide (i < length d)%nat); [|exact H1].
  now apply set_rows_one_fetch with d.
Qed.

Lemma append_one_fetch r : preserves (one_fetch hs rows) (append c r).
Proof.
  intros st Hst. unfold append, bind.
  pose proof (sheet_data_one_fetch st Hst) as H1.
  destruct (sheet_data c st) as [[d|e] st1] eqn:E; [|exact H1].
  apply sheet_data_ok in E. simpl in H1.
  now apply set_rows_one_fetch with d.
Qed.

Lemma add_log_one_fetch m : preserves (one_fetch hs rows) (modify (add_log m)).
Proof. intros st H. exact H. Qed.

Lemma sheet_data_loaded : preserves (loaded hs) (sheet_data c).
Proof.
  intros st [[d Hd] [Hh Hn]]. rewrite (sheet_data_cached c st d Hd).
  split; eauto.
Qed.

Lemma setitem_loaded i r : preserves (loaded hs) (setitem c i r).
Proof.
  intros st [[d Hd] [Hh Hn]]. unfold setitem.
  rewrite (bind_ok _ _ _ _ _ (sheet_data_cached c st d Hd)).
  destruct (decide (i < length d)%nat); split; simpl; eauto.
Qed.

Lemma append_loaded r : preserves (loaded hs) (append c r).
Proof.
  intros st [[d Hd] [Hh Hn]]. unfold append.
  rewrite (bind_ok _ _ _ _ _ (sheet_data_cached c st d Hd)).
  split; simpl; eauto.
Qed.

Lemma add_log_loaded m : preserves (loaded hs) (modify (add_log m)).
Proof. intros st H. exact H. Qed.

Lemma index_first (f : string) :
  VStr f ∈ hs →
  ∃ i, index (VStr f) hs = Ok i ∧ hs !! i = Some (VStr f)
       ∧ ∀ j, (j < i)%nat → hs !! j ≠ Some (VStr f).
Proof.
  intros Hin. unfold index.
  destruct (list_find (λ y, y = VStr f) hs) as [[i x]|] eqn:E.
  - apply list_find_Some in E as [Hi [-> Hmin]].
    exists i. repeat split; [assumption|].
    intros j Hj Hl. exact (Hmin j _ Hl Hj eq_refl).
  - apply list_find_None in E. rewrite Forall_forall in E.
    now destruct (E _ Hin).
Qed.

(** The first use of [column_index] fetches; a later one does not. *)
Lemma column_index_one_fetch (f : string) (i : nat) (st : session) :
  one_fetch hs rows st → index (VStr f) hs = Ok i →
  (column_index c f st).1 = Ok i ∧ loaded hs (column_index c f st).2.
Proof.
  intros [Hapi [[Hd [Hh Hn]]|[[d Hd] [Hh Hn]]]] Hi.
  - unfold column_index, sheet_headers, sheet_data, bind, lift.
    destruct st as [sd sh av n w l]. simpl in *. subst. cbn -[index].
    destruct (match hs with [] => true | _ :: _ => false end);
      cbn -[index]; rewrite Hi; (split; [reflexivity|]); split; simpl; eauto.
  - rewrite (column_index_cached c f st d Hd), Hh. simpl.
    split; [assumption|]. split; eauto.
Qed.

Lemma column_index_loaded (f : string) (st : session) :
  loaded hs st → column_index c f st = (index (VStr f) hs, st).
Proof.
  intros [[d Hd] [Hh Hn]]. now rewrite (column_index_cached c f st d Hd), Hh.
Qed.

End One_fetch.

Lemma perform_all_one_fetch c hs rows l st :
  one_fetch hs rows st → one_fetch hs rows (perform_all c l st).
Proof.
  apply perform_all_kept.
  - apply sheet_data_one_fetch.
  - apply setitem_one_fetch.
  - apply append_one_fetch.
  - apply add_log_one_fetch.
Qed.

Lemma perform_all_loaded c hs l st :
  loaded hs st → loaded hs (perform_all c l st).
Proof.
  apply perform_all_kept.
  - apply sheet_data_loaded.
  - apply setitem_loaded.
  - apply append_loaded.
  - apply add_log_loaded.
Qed.

(** C8. In a session of a sheet with header row [hs], whatever accesses
    (header row, data rows, [column_index], [existing_row], [upsert_data])
    come before, between and after, [column_index] of a field of the header
    row returns the same offset each time: that of the field's first
    occurrence.  One fetch has been made once it has returned, and none is
    added by the accesses that follow or by the second call, which leaves
    the session as it is. *)
Theorem column_index_idempotent (c : config) (hs : row) (rows : list row)
    (f : string) (before after : list access) :
  VStr f ∈ hs →
  ∃ i, hs !! i = Some (VStr f)
       ∧ (∀ j, (j < i)%nat → hs !! j ≠ Some (VStr f))
       ∧ let st0 := perform_all c before (fresh (Ok (hs :: rows))) in
         let r1 := column_index c f st0 in
         let st2 := perform_all c after r1.2 in
         let r2 := column_index c f st2 in
         (fetches st0 ≤ 1)%nat
         ∧ r1.1 = Ok i ∧ fetches r1.2 = 1%nat
         ∧ fetches st2 = 1%nat
         ∧ r2 = (Ok i, st2).
Proof.
  intros Hin. destruct (index_first hs f Hin) as [i [Hi [Hl Hmin]]].
  exists i. split; [exact Hl|]. split; [exact Hmin|]. intros st0 r1 st2 r2.
  assert (H0 : one_fetch hs rows st0).
  { apply perform_all_one_fetch. split; [reflexivity|]. left. now repeat split. }
  destruct (column_index_one_fetch c hs rows f i st0 H0 Hi) as [E1 L1].
  fold r1 in E1, L1.
  assert (L2 : loaded hs st2) by now apply perform_all_loaded.
  split; [|split; [exact E1|split; [apply L1|split; [apply L2|]]]].
  - destruct H0 as [_ [[_ [_ ->]]|[_ [_ ->]]]]; lia.
  - subst r2. now rewrite (column_index_loaded c hs f st2 L2), Hi.
Qed.

Lemma column_index_idempotent_witness :
  ∃ i, name_id_headers !! i = Some (VStr "Django GUID")
       ∧ (∀ j, (j < i)%nat → name_id_headers !! j ≠ Some (VStr "Django GUID"))
       ∧ let st0 := perform_all default_config [ReadData]
                      (fresh (Ok [name_id_headers; [VStr "Alice"; VStr "id-1"]])) in
         let r1 := column_index default_config "Django GUID" st0 in
         let st2 := perform_all default_config
                      [ReadHeaders; UpsertData (instance "id-2" "Bob")] r1.2 in
         let r2 := column_index default_config "Django GUID" st2 in
         (fetches st0 ≤ 1)%nat
         ∧ r1.1 = Ok i ∧ fetches r1.2 = 1%nat
         ∧ fetches st2 = 1%nat
         ∧ r2 = (Ok i, st2).
Proof.
  apply (column_index_idempotent default_config name_id_headers
           [[VStr "Alice"; VStr "id-1"]] "Django GUID").
  apply list_elem_of_In. simpl. auto.
Defined.

(** ** [upsert_data] on a cached snapshot *)

Lemma index_in (x : value) (l : row) (i : nat) : index x l = Ok i → x ∈ l.
Proof.
  unfold index. destruct (list_find (λ y, y = x) l) as [[j y]|] eqn:E; [|discriminate].
  intros _. apply list_find_Some in E as [Hj [-> _]].
  now apply list_elem_of_lookup_2 in Hj.
Qed.

Lemma index_not_in (x : value) (l : row) (e : exn) :
  index x l = Err e → (x ∉ l) ∧ e = ValueError.
Proof.
  unfold index. destruct (list_find (λ y, y = x) l) as [[j y]|] eqn:E; [discriminate|].
  intros [= <-]. split; [|reflexivity].
  apply list_find_None in E. rewrite Forall_forall in E.
  intros Hin. now apply (E _ Hin).
Qed.

Lemma resolve_some (c : config) (hs : row) (f : string) (ix : nat) :
  resolve c hs f = Some ix → VStr (header_of c f) ∈ hs.
Proof.
  unfold resolve. destruct (index _ hs) as [j|e] eqn:E; [|discriminate].
  intros _. now apply index_in in E.
Qed.

Lemma resolve_none (c : config) (hs : row) (f : string) :
  resolve c hs f = None → VStr (header_of c f) ∉ hs.
Proof.
  unfold resolve. destruct (index _ hs) as [j|e] eqn:E; [discriminate|].
  intros _. now apply index_not_in in E.
Qed.

(** One turn of the first loop: the field is recorded with its column, or
    the lookup raises [ValueError] and the field is logged and skipped. *)
Lemma field_index_cached (c : config) (f : string) (acc : list (string * nat))
    (st : session) (hs : row) (d : list row) :
  _sheet_data st = Some d → _sheet_headers st = Some hs →
  try_except
    (let* ix := column_index c (header_of c f) in ret (acc ++ [(f, ix)]))
    ValueError
    (let* _ := modify (add_log (skip_message f)) in ret acc) st
  = match resolve c hs f with
    | Some ix => (Ok (acc ++ [(f, ix)]), st)
    | None => (Ok acc, add_log (skip_message f) st)
    end.
Proof.
  intros Hd Hh. unfold try_except, bind.
  rewrite (column_index_cached c _ st d Hd), Hh. unfold resolve.
  destruct (index (VStr (header_of c f)) hs) as [ix|e] eqn:E; [reflexivity|].
  apply index_not_in in E as [_ ->]. reflexivity.
Qed.

Lemma field_indexes_cached (c : config) (hs : row) (d : list row)
    (fields : list string) :
  ∀ acc st,
    _sheet_data st = Some d → _sheet_headers st = Some hs →
    field_indexes c fields acc st
    = (Ok (acc ++ resolved c hs fields),
       with_log (map skip_message (skipped c hs fields)) st).
Proof.
  induction fields as [|f fields IH]; intros acc st Hd Hh; simpl.
  - now rewrite app_nil_r, with_log_nil.
  - unfold bind at 1. rewrite (field_index_cached c f acc st hs d Hd Hh).
    destruct (resolve c hs f) as [ix|].
    + rewrite (IH _ st Hd Hh). now rewrite <- app_assoc.
    + rewrite (IH _ (add_log (skip_message f) st) Hd Hh).
      now rewrite with_log_add_log.
Qed.

Lemma insert_by_ix_perm (x : string * nat) (l : list (string * nat)) :
  insert_by_ix x l ≡ₚ x :: l.
Proof.
  induction l as [|y l IH]; simpl; [reflexivity|].
  destruct (x.2 <=? y.2)%nat; [reflexivity|].
  rewrite IH. apply Permutation_swap.
Qed.

Lemma sorted_by_ix_perm (l : list (string * nat)) : sorted_by_ix l ≡ₚ l.
Proof.
  induction l as [|x l IH]; simpl; [reflexivity|].
  rewrite insert_by_ix_perm. now rewrite IH.
Qed.

Lemma dict_get_key (f : string) (data : dict) :
  f ∈ keys data → ∃ v, dict_get f data = Some v.
Proof.
  induction data as [|[k v] data IH]; simpl; intros H.
  - now apply elem_of_nil in H.
  - destruct (String.eqb f k) eqn:E; [eauto|].
    apply elem_of_cons in H as [->|H]; [|now apply IH].
    now rewrite String.eqb_refl in E.
Qed.

Lemma resolved_fields (c : config) (hs : row) (fields : list string) :
  map fst (resolved c hs fields)
  = filter (λ f, VStr (header_of c f) ∈ hs) fields.
Proof.
  induction fields as [|f fields IH]; simpl; [reflexivity|].
  destruct (resolve c hs f) as [ix|] eqn:E.
  - apply resolve_some in E. rewrite filter_cons_True by exact E.
    simpl. now rewrite IH.
  - apply resolve_none in E. now rewrite filter_cons_False by exact E.
Qed.

Lemma skipped_fields (c : config) (hs : row) (fields : list string) :
  skipped c hs fields = filter (λ f, VStr (header_of c f) ∉ hs) fields.
Proof.
  induction fields as [|f fields IH]; simpl; [reflexivity|].
  destruct (resolve c hs f) as [ix|] eqn:E.
  - apply resolve_some in E. rewrite filter_cons_False by (intros H; now apply H).
    exact IH.
  - apply resolve_none in E. rewrite filter_cons_True by exact E.
    now rewrite IH.
Qed.

(** The fields of the row are the fields that have a column. *)
Lemma row_fields_perm (c : config) (hs : row) (data : dict) :
  row_fields c hs data ≡ₚ filter (λ f, VStr (header_of c f) ∈ hs) (keys data).
Proof.
  unfold row_fields. rewrite <- resolved_fields.
  apply Permutation_map. apply sorted_by_ix_perm.
Qed.

Lemma row_values_ok (data : dict) (fis : list (string * nat)) :
  Forall (λ f, f ∈ keys data) (map fst fis) →
  row_values data fis = Ok (omap (λ f, dict_get f data) (map fst fis)).
Proof.
  induction fis as [|[f ix] fis IH]; simpl; intros H; [reflexivity|].
  apply Forall_cons in H as [Hf H].
  destruct (dict_get_key f data Hf) as [v Hv].
  unfold dict_item. rewrite Hv. simpl. now rewrite (IH H).
Qed.

Lemma row_values_row_of (c : config) (hs : row) (data : dict) :
  row_values data (sorted_by_ix (resolved c hs (keys data)))
  = Ok (row_of c hs data).
Proof.
  apply row_values_ok. fold (row_fields c hs data).
  rewrite row_fields_perm. apply Forall_forall. intros f Hf.
  now apply list_elem_of_filter in Hf as [_ Hf].
Qed.

(** [upsert_data] on a session that holds the header row [hs] and the rows
    [d]: the skipped fields are logged, and the row built replaces the row
    [existing_row] found or is appended. *)
Lemma upsert_data_cached (c : config) (data : dict) (st : session)
    (hs : row) (d : list row) :
  _sheet_data st = Some d → _sheet_headers st = Some hs →
  upsert_data c data st
  = let st1 := with_log (map skip_message (skipped c hs (keys data))) st in
    match lookup_row c data (Some hs) d with
    | Err e => (Err e, st1)
    | Ok (Some i) =>
        if decide (i < length d)%nat
        then (Ok tt, set_sheet_data (Some (<[i:=row_of c hs data]> d)) st1)
        else (Err IndexError, st1)
    | Ok None => (Ok tt, set_sheet_data (Some (d ++ [row_of c hs data])) st1)
    end.
Proof.
  intros Hd Hh. unfold upsert_data.
  rewrite (bind_ok _ _ _ _ _ (field_indexes_cached c hs d (keys data) [] st Hd Hh)).
  simpl app. set (st1 := with_log _ st).
  assert (Hd1 : _sheet_data st1 = Some d) by exact Hd.
  assert (Hh1 : _sheet_headers st1 = Some hs) by exact Hh.
  rewrite (bind_ok _ _ st1 (row_of c hs data) st1)
    by (unfold lift; now rewrite row_values_row_of).
  unfold bind at 1. rewrite (existing_row_cached c data st1 d Hd1), Hh1.
  simpl. destruct (lookup_row c data (Some hs) d) as [[i|]|e]; [| |reflexivity].
  - unfold setitem.
    rewrite (bind_ok _ _ _ _ _ (sheet_data_cached c st1 d Hd1)).
    now destruct (decide (i < length d)%nat).
  - unfold append.
    now rewrite (bind_ok _ _ _ _ _ (sheet_data_cached c st1 d Hd1)).
Qed.

(** ** The scan for an existing row *)

Lemma scan_rows_found (ix : nat) (v : value) (d : list row) :
  ∀ j r i,
    d !! j = Some r → r !! ix = Some v →
    (∀ k r', (k < j)%nat → d !! k = Some r' →
             ∃ cell, r' !! ix = Some cell ∧ cell ≠ v) →
    scan_rows ix v i d = Ok (Some (i + j)%nat).
Proof.
  induction d as [|r0 d IH]; intros j r i Hj Hr Hbefore; [discriminate|].
  simpl. unfold getitem. destruct j as [|j]; simpl in Hj.
  - injection Hj as ->. rewrite Hr. simpl.
    rewrite decide_True by reflexivity. now rewrite Nat.add_0_r.
  - destruct (Hbefore 0%nat r0) as [cell [Hc Hne]]; [lia|reflexivity|].
    rewrite Hc. simpl. rewrite decide_False by exact Hne.
    rewrite (IH j r (S i) Hj Hr).
    + now rewrite Nat.add_succ_r.
    + intros k r' Hk Hl. apply (Hbefore (S k) r'); [lia|exact Hl].
Qed.

Lemma scan_rows_none (ix : nat) (v : value) (d : list row) :
  Forall (λ r, ∃ cell, r !! ix = Some cell ∧ cell ≠ v) d →
  ∀ i, scan_rows ix v i d = Ok None.
Proof.
  induction 1 as [|r d [cell [Hc Hne]] _ IH]; intros i; simpl; [reflexivity|].
  unfold getitem. rewrite Hc. simpl. rewrite decide_False by exact Hne.
  apply IH.
Qed.

Lemma scan_rows_bound (ix : nat) (v : value) (d : list row) :
  ∀ i j, scan_rows ix v i d = Ok (Some j) → (i ≤ j < i + length d)%nat.
Proof.
  induction d as [|r d IH]; intros i j; simpl; [discriminate|].
  destruct (getitem r ix) as [cell|e]; simpl; [|discriminate].
  destruct (decide (cell = v)).
  - intros [= <-]. lia.
  - intros H. apply IH in H. lia.
Qed.

Lemma lookup_row_scan (c : config) (data : dict) (hs : row) (d : list row)
    (v : value) (ix : nat) :
  dict_get (model_id_field c) data = Some v →
  index (VStr (sheet_id_field c)) hs = Ok ix →
  lookup_row c data (Some hs) d = scan_rows ix v 0 d.
Proof.
  intros Hv Hix. unfold lookup_row, dict_item. now rewrite Hv, Hix.
Qed.

(** C2. [existing_row] subscripts every row it scans at the offset of the
    hidden identifier column, and a row without a cell there makes the
    upsert raise [IndexError] with the cached rows as they were.  Two such
    sheets.  Under the header row [Name], [Age], [Django GUID] the upsert of
    [id-2] leaves a row of two cells; the upsert of [id-3], an identifier
    that no cached row holds, then raises and appends nothing.  On a sheet
    whose row of Carol has no identifier cell, before the row of Alice with
    [id-1], the upsert of [id-1] raises and the row of Alice is not
    overwritten. *)
Theorem upsert_data_short_row_raises :
  let headers := [VStr "Name"; VStr "Age"; VStr "Django GUID"] in
  let st := (upsert_data default_config (instance "id-2" "Bob")
               (fresh (Ok [headers]))).2 in
  let ragged :=
    (sheet_data default_config
       (fresh (Ok [name_id_headers; [VStr "Carol"];
                   [VStr "Alice"; VStr "id-1"]]))).2 in
  (_sheet_data st = Some [[VStr "Bob"; VStr "id-2"]]
   ∧ (upsert_data default_config (instance "id-3" "Cid") st).1
     = Err IndexError
   ∧ _sheet_data (upsert_data default_config (instance "id-3" "Cid") st).2
     = Some [[VStr "Bob"; VStr "id-2"]])
  ∧ (_sheet_data ragged = Some [[VStr "Carol"]; [VStr "Alice"; VStr "id-1"]]
     ∧ (upsert_data default_config (instance "id-1" "Alicia") ragged).1
       = Err IndexError
     ∧ _sheet_data
         (upsert_data default_config (instance "id-1" "Alicia") ragged).2
       = Some [[VStr "Carol"]; [VStr "Alice"; VStr "id-1"]]).
Proof. vm_compute. repeat split; reflexivity. Qed.

(** Where every row scanned has a cell in the hidden identifier column.  On
    a session that holds the header row and the data rows, with the
    identifier in the data and the hidden identifier column in the header
    row: when row [j] is the first row whose cell in that column equals the
    identifier, and every row before it has another cell there,
    [upsert_data] replaces row [j] by the row it built and the number of
    rows is unchanged; when every row has another cell there, it appends the
    row built, one row more. *)
Theorem upsert_data_overwrites_or_appends (c : config) (data : dict)
    (st : session) (hs : row) (d : list row) (v : value) (ix : nat) :
  _sheet_data st = Some d → _sheet_headers st = Some hs →
  dict_get (model_id_field c) data = Some v →
  index (VStr (sheet_id_field c)) hs = Ok ix →
  (∀ j r,
     d !! j = Some r → r !! ix = Some v →
     (∀ k r', (k < j)%nat → d !! k = Some r' →
              ∃ cell, r' !! ix = Some cell ∧ cell ≠ v) →
     ∃ st', upsert_data c data st = (Ok tt, st')
            ∧ _sheet_data st' = Some (<[j:=row_of c hs data]> d)
            ∧ <[j:=row_of c hs data]> d !! j = Some (row_of c hs data)
            ∧ length (<[j:=row_of c hs data]> d) = length d
            ∧ _sheet_headers st' = Some hs)
  ∧ (Forall (λ r, ∃ cell, r !! ix = Some cell ∧ cell ≠ v) d →
     ∃ st', upsert_data c data st = (Ok tt, st')
            ∧ _sheet_data st' = Some (d ++ [row_of c hs data])
            ∧ length (d ++ [row_of c hs data]) = S (length d)
            ∧ _sheet_headers st' = Some hs).
Proof.
  intros Hd Hh Hv Hix. split.
  - intros j r Hj Hr Hbefore.
    rewrite (upsert_data_cached c data st hs d Hd Hh).
    rewrite (lookup_row_scan c data hs d v ix Hv Hix).
    rewrite (scan_rows_found ix v d j r 0 Hj Hr Hbefore). simpl.
    assert (Hlt : (j < length d)%nat) by (apply lookup_lt_is_Some; eauto).
    rewrite decide_True by exact Hlt.
    eexists. split; [reflexivity|]. simpl.
    repeat split; [now apply list_lookup_insert_eq|now rewrite length_insert|exact Hh].
  - intros Hnone.
    rewrite (upsert_data_cached c data st hs d Hd Hh).
    rewrite (lookup_row_scan c data hs d v ix Hv Hix).
    rewrite (scan_rows_none ix v d Hnone). simpl.
    eexists. split; [reflexivity|]. simpl.
    repeat split; [|exact Hh]. rewrite length_app. simpl. lia.
Qed.

(** The two scenarios of the specification on the sheet with the row of
    Alice: pushing [id-1] with the name Alicia overwrites it, pushing [id-2]
    with the name Bob appends a row. *)
Lemma upsert_data_overwrites_or_appends_witness :
  let st := (sheet_data default_config (fresh alice_sheet)).2 in
  (∃ st', upsert_data default_config (instance "id-1" "Alicia") st = (Ok tt, st')
          ∧ _sheet_data st' = Some [[VStr "Alicia"; VStr "id-1"]])
  ∧ (∃ st', upsert_data default_config (instance "id-2" "Bob") st = (Ok tt, st')
            ∧ _sheet_data st'
              = Some [[VStr "Alice"; VStr "id-1"]; [VStr "Bob"; VStr "id-2"]]).
Proof.
  intros st. split.
  - destruct (upsert_data_overwrites_or_appends default_config
                (instance "id-1" "Alicia") st name_id_headers
                [[VStr "Alice"; VStr "id-1"]] (VStr "id-1") 1
                eq_refl eq_refl eq_refl eq_refl) as [H _].
    destruct (H 0%nat [VStr "Alice"; VStr "id-1"] eq_refl eq_refl)
      as [st' [E [Hd _]]]; [intros k r' Hk; lia|].
    exists st'. split; [exact E|exact Hd].
  - destruct (upsert_data_overwrites_or_appends default_config
                (instance "id-2" "Bob") st name_id_headers
                [[VStr "Alice"; VStr "id-1"]] (VStr "id-2") 1
                eq_refl eq_refl eq_refl eq_refl) as [_ H].
    destruct H as [st' [E [Hd _]]].
    + repeat constructor. exists (VStr "id-1"). split; [reflexivity|discriminate].
    + exists st'. split; [exact E|exact Hd].
Defined.

(** ** Fields without a header *)

Lemma row_of_values (c : config) (hs : row) (data : dict) :
  Forall2 (λ f v, dict_get f data = Some v) (row_fields c hs data)
    (row_of c hs data).
Proof.
  assert (H : Forall (λ f, f ∈ keys data) (row_fields c hs data)).
  { rewrite row_fields_perm. apply Forall_forall. intros f Hf.
    now apply list_elem_of_filter in Hf as [_ Hf]. }
  unfold row_of. induction H as [|f l Hf _ IH]; simpl; [constructor|].
  destruct (dict_get_key f data Hf) as [v Hv]. rewrite Hv. simpl.
  now constructor.
Qed.

(** C7, as the code has it.  On a session that holds the header row and the
    data rows, with the identifier in the data, the hidden identifier column
    in the header row and a scan that completes: [upsert_data] returns; it
    logs one record for each field whose header is missing, where the header
    of the identifier field is the hidden identifier column and the header
    of any other field is its own name; the row it builds holds the values
    of exactly the other fields; and that row is stored, over the row found
    or at the end.  In particular a field other than the identifier whose
    name is not in the header row is left out of the row and logged. *)
Theorem upsert_data_skips_fields_without_header (c : config) (data : dict)
    (st : session) (hs : row) (d : list row) (v : value) (ix : nat)
    (o : option nat) :
  _sheet_data st = Some d → _sheet_headers st = Some hs →
  dict_get (model_id_field c) data = Some v →
  index (VStr (sheet_id_field c)) hs = Ok ix →
  scan_rows ix v 0 d = Ok o →
  ∃ st',
    upsert_data c data st = (Ok tt, st')
    ∧ log st'
      = log st ++ map skip_message
                    (filter (λ f, VStr (header_of c f) ∉ hs) (keys data))
    ∧ row_fields c hs data
      ≡ₚ filter (λ f, VStr (header_of c f) ∈ hs) (keys data)
    ∧ Forall2 (λ f x, dict_get f data = Some x) (row_fields c hs data)
        (row_of c hs data)
    ∧ _sheet_data st'
      = Some (match o with
              | Some j => <[j:=row_of c hs data]> d
              | None => d ++ [row_of c hs data]
              end)
    ∧ header_of c (model_id_field c) = sheet_id_field c
    ∧ (∀ f, f ∈ keys data → f ≠ model_id_field c → VStr f ∉ hs →
            (f ∉ row_fields c hs data) ∧ skip_message f ∈ log st').
Proof.
  intros Hd Hh Hv Hix Ho.
  rewrite (upsert_data_cached c data st hs d Hd Hh).
  rewrite (lookup_row_scan c data hs d v ix Hv Hix), Ho. simpl.
  assert (Hid : header_of c (model_id_field c) = sheet_id_field c).
  { unfold header_of. now rewrite decide_False by (intros H; now apply H). }
  assert (Hother : ∀ f, f ≠ model_id_field c → header_of c f = f).
  { intros f Hf. unfold header_of. now rewrite decide_True by exact Hf. }
  assert (Hskip : ∀ (l : list string) f,
             f ∈ keys data → f ≠ model_id_field c → VStr f ∉ hs →
             (f ∉ row_fields c hs data)
             ∧ skip_message f
               ∈ l ++ map skip_message
                        (filter (λ f, VStr (header_of c f) ∉ hs) (keys data))).
  { intros l f Hf Hne Hno. split.
    - rewrite row_fields_perm. intros H.
      apply list_elem_of_filter in H as [H _].
      rewrite (Hother f Hne) in H. exact (Hno H).
    - apply elem_of_app. right. apply list_elem_of_In, in_map, list_elem_of_In.
      apply list_elem_of_filter. split; [|exact Hf]. now rewrite (Hother f Hne). }
  destruct o as [j|].
  - apply scan_rows_bound in Ho. rewrite decide_True by lia.
    eexists. split; [reflexivity|]. simpl. rewrite skipped_fields.
    split; [reflexivity|]. split; [apply row_fields_perm|].
    split; [apply row_of_values|]. split; [reflexivity|]. split; [exact Hid|].
    intros f Hf Hne Hno. now apply Hskip.
  - eexists. split; [reflexivity|]. simpl. rewrite skipped_fields.
    split; [reflexivity|]. split; [apply row_fields_perm|].
    split; [apply row_of_values|]. split; [reflexivity|]. split; [exact Hid|].
    intros f Hf Hne Hno. now apply Hskip.
Qed.

(** A field without header is skipped, the fields with one are stored: the
    header row has no column [Age]. *)
Lemma upsert_data_skips_fields_without_header_witness :
  let data := [("id", VStr "id-2"); ("Age", VInt 41); ("Name", VStr "Bob")] in
  let st := (sheet_data default_config (fresh alice_sheet)).2 in
  ∃ st',
    upsert_data default_config data st = (Ok tt, st')
    ∧ log st' = ["skipping field Age because it has no header"]
    ∧ _sheet_data st'
      = Some [[VStr "Alice"; VStr "id-1"]; [VStr "Bob"; VStr "id-2"]].
Proof.
  intros data st.
  destruct (upsert_data_skips_fields_without_header default_config data st
              name_id_headers [[VStr "Alice"; VStr "id-1"]] (VStr "id-2") 1 None
              eq_refl eq_refl eq_refl eq_refl eq_refl)
    as [st' [E [Hl [_ [_ [Hd _]]]]]].
  exists st'. split; [exact E|]. split; [exact Hl|exact Hd].
Defined.

(** C7, as stated, fails for the identifier field, in the scenario of the
    specification: [id] is pushed and is no entry of the header row, yet its
    value is in the row built and nothing is logged, because the field is
    looked up under [Django GUID].  And where that column is missing too, the
    field is skipped and logged, but the call then raises [ValueError] in
    [existing_row], and no row is stored. *)
Lemma upsert_data_identifier_not_skipped :
  let data := instance "id-1" "Alicia" in
  let st := (upsert_data default_config data
               (sheet_data default_config (fresh alice_sheet)).2).2 in
  let r := upsert_data default_config data
             (sheet_data default_config
                (fresh (Ok [[VStr "Name"]; [VStr "Alice"]]))).2 in
  "id" ∈ keys data
  ∧ (VStr "id" ∉ name_id_headers)
  ∧ _sheet_data st = Some [[VStr "Alicia"; VStr "id-1"]]
  ∧ log st = []
  ∧ r.1 = Err ValueError
  ∧ _sheet_data r.2 = Some [[VStr "Alice"]]
  ∧ log r.2 = ["skipping field id because it has no header"].
Proof.
  repeat split; try reflexivity.
  - apply list_elem_of_In. simpl. auto.
  - intros H. apply list_elem_of_In in H. simpl in H.
    destruct H as [H|[H|[]]]; discriminate.
Qed.

(** ** The final write-out of [upsert_table] *)

Lemma bind_ok_inv {A B} (m : M A) (k : A → M B) st b st' :
  bind m k st = (Ok b, st') →
  ∃ a st1, m st = (Ok a, st1) ∧ k a st1 = (Ok b, st').
Proof.
  unfold bind. destruct (m st) as [[a|e] st1]; [eauto|discriminate].
Qed.

Lemma writeout_if_due_last (c : config) cols_start cols_end rows_start
    (i : nat) (lw lw' : Z) st st' :
  writeout_if_due c cols_start cols_end rows_start i lw st = (Ok lw', st') →
  (lw' = lw ∧ ¬ due c (Z.of_nat i)) ∨ (lw' = Z.of_nat i ∧ due c (Z.of_nat i)).
Proof.
  unfold writeout_if_due, due. destruct (0 <? Z.of_nat i) eqn:Hi.
  2:{ intros [= <- _]. left. split; [reflexivity|lia]. }
  intros H. apply bind_ok_inv in H as [m [st1 [Hm H]]].
  unfold lift, py_mod in Hm.
  destruct (batch_size c =? 0) eqn:Hb; [discriminate|].
  injection Hm as <- <-.
  destruct (Z.of_nat i mod batch_size c =? 0) eqn:Hmod.
  - apply bind_ok_inv in H as [_ [st2 [_ H]]]. injection H as <- _.
    right. split; [reflexivity|]. repeat split; lia.
  - injection H as <- _. left. split; [reflexivity|lia].
Qed.

(** [last_writeout] after the loop: its initial value, or the index of a
    write-out inside the loop; and no later index of the loop was due. *)
Lemma upsert_loop_last (c : config) push_fields cols_start cols_end rows_start
    (queryset : list dict) :
  ∀ (i : nat) (lw lw' : Z) st st',
    upsert_loop c push_fields cols_start cols_end rows_start i lw queryset st
    = (Ok lw', st') →
    (lw' = lw
     ∨ (Z.of_nat i ≤ lw' < Z.of_nat i + Z.of_nat (length queryset)
        ∧ due c lw'))
    ∧ ∀ k, Z.of_nat i ≤ k < Z.of_nat i + Z.of_nat (length queryset) →
           lw' < k → ¬ due c k.
Proof.
  induction queryset as [|obj queryset IH]; intros i lw lw' st st'; simpl length.
  - intros [= <- _]. split; [now left|]. intros k Hk. lia.
  - intros H. simpl in H. apply bind_ok_inv in H as [lw1 [st1 [H1 H]]].
    apply bind_ok_inv in H as [data [st2 [_ H]]].
    apply bind_ok_inv in H as [_ [st3 [_ H]]].
    apply IH in H as [H Hlater]. apply writeout_if_due_last in H1.
    split.
    + destruct H as [->|[Hr Hdue]]; [|right; split; [lia|exact Hdue]].
      destruct H1 as [[-> _]|[-> Hdue]]; [now left|].
      right. split; [lia|exact Hdue].
    + intros k Hk Hlt.
      destruct (Z.eq_dec k (Z.of_nat i)) as [->|Hne]; [|apply Hlater; lia].
      destruct H1 as [[_ Hnot]|[-> Hdue]]; [exact Hnot|].
      destruct H as [->|[Hr _]]; lia.
Qed.

Lemma slice_from_drop {A} (l : list A) (a : Z) :
  0 ≤ a → slice_from l a = drop (Z.to_nat a) l.
Proof.
  intros Ha. unfold slice_from, slice_bound.
  destruct (a <? 0) eqn:E; [lia|].
  destruct (Z.le_gt_cases a (Z.of_nat (length l))) as [H|H].
  - now rewrite Z.min_l by lia.
  - rewrite Z.min_r by lia. rewrite Nat2Z.id.
    rewrite drop_all. symmetry. apply drop_ge. lia.
Qed.

(** C3, as the code has it.  A run of [upsert_table] over a queryset that is
    not empty ends with the final write-out.  Its range starts at row
    [max 2 lw], where [lw] is the index of the last write-out inside the
    loop or 0, so never above row 2; it ends at the last row of the
    configured range; its payload is the cache from offset [lw] on.  The
    header row, which is the first row of the configured range, lies above
    the range written when the configured range starts at row 1 or at
    row 0. *)
Theorem upsert_table_final_writeout (c : config) (push_fields : list string)
    (queryset : list dict) (st st' : session) :
  queryset ≠ [] →
  upsert_table c push_fields queryset st = (Ok tt, st') →
  ∃ cols rows lw d,
    sheet_range_cols c = Ok cols
    ∧ sheet_range_rows c = Ok rows
    ∧ last_flush c (Z.of_nat (length queryset)) lw
    ∧ _sheet_data st' = Some d
    ∧ last (writeouts st')
      = Some (range_string c cols.1 (Z.max 2 lw) cols.2 rows.2,
              drop (Z.to_nat lw) d)
    ∧ 2 ≤ Z.max 2 lw
    ∧ (rows.1 ≤ 1 → rows.1 < Z.max 2 lw).
Proof.
  intros Hne H. unfold upsert_table in H.
  apply bind_ok_inv in H as [cols [s1 [Hc H]]]. injection Hc as Hc <-.
  apply bind_ok_inv in H as [rows [s2 [Hr H]]]. injection Hr as Hr <-.
  apply bind_ok_inv in H as [lw [st1 [Hloop H]]].
  apply bind_ok_inv in H as [[] [st2 [Hfinal H]]]. injection H as H. subst st'.
  apply upsert_loop_last in Hloop as [Hlw Hlater].
  assert (Hlen : 0 < Z.of_nat (length queryset)).
  { destruct queryset; [congruence|simpl; lia]. }
  assert (Hflush : last_flush c (Z.of_nat (length queryset)) lw).
  { destruct Hlw as [->|[Hr' Hdue]].
    - repeat split; [now left|lia..|]. intros k Hk. apply Hlater; lia.
    - repeat split; [now right|lia..|]. intros k Hk. apply Hlater; lia. }
  destruct Hflush as [H0 [Hrange Hlast]].
  destruct (lw <? Z.of_nat (length queryset)) eqn:Hlt; [|lia].
  unfold final_writeout in Hfinal.
  apply bind_ok_inv in Hfinal as [d [st3 [Hd Hw]]].
  apply sheet_data_ok in Hd. injection Hw as Hw. subst st2.
  exists cols, rows, lw, d. repeat split; try assumption; try lia.
  simpl. rewrite last_snoc. now rewrite slice_from_drop by lia.
Qed.

Lemma upsert_table_final_writeout_witness :
  let st' := (upsert_table batch_of_two ["id"; "Name"] five_instances
                (fresh (Ok [name_id_headers]))).2 in
  ∃ cols rows lw d,
    sheet_range_cols batch_of_two = Ok cols
    ∧ sheet_range_rows batch_of_two = Ok rows
    ∧ last_flush batch_of_two 5 lw
    ∧ _sheet_data st' = Some d
    ∧ last (writeouts st')
      = Some (range_string batch_of_two cols.1 (Z.max 2 lw) cols.2 rows.2,
              drop (Z.to_nat lw) d)
    ∧ 2 ≤ Z.max 2 lw
    ∧ (rows.1 ≤ 1 → rows.1 < Z.max 2 lw).
Proof.
  intros st'.
  apply (upsert_table_final_writeout batch_of_two ["id"; "Name"] five_instances
           (fresh (Ok [name_id_headers])) st').
  - discriminate.
  - vm_compute. reflexivity.
Defined.

(** C3, as stated, fails where the configured range starts at row 2: the
    header row is row 2 of the sheet, and the final write-out of a run over
    one instance starts at row 2 with one row of data. *)
Lemma final_writeout_on_header_row :
  let st' := (upsert_table range_from_row_two ["id"; "Name"]
                [instance "id-1" "Ann"] (fresh (Ok [name_id_headers]))).2 in
  sheet_range_rows range_from_row_two = Ok (2, 30000)
  ∧ _sheet_headers st' = Some name_id_headers
  ∧ writeouts st'
    = [(range_string range_from_row_two "A" (Z.max 2 0) "Z" 30000,
        [[VStr "Ann"; VStr "id-1"]])]
  ∧ range_string range_from_row_two "A" (Z.max 2 0) "Z" 30000
    = "Sheet1!A2:Z30000"
  ∧ ¬ (2 < Z.max 2 0).
Proof. vm_compute. repeat split; try reflexivity. intros H. discriminate H. Qed.

(** ** The write-outs of a run *)

(** A slice of width [n] has at most [n] elements. *)
Lemma slice_length {A} (l : list A) (a n : Z) :
  0 ≤ n → (length (slice l a (a + n)) ≤ Z.to_nat n)%nat.
Proof.
  intros Hn. unfold slice, slice_bound. rewrite length_take.
  destruct (Z.ltb_spec a 0), (Z.ltb_spec (a + n) 0); lia.
Qed.

Lemma sheet_data_writeouts (c : config) (W : list (string * list row)) :
  preserves (λ st, writeouts st = W) (sheet_data c).
Proof.
  intros st H. unfold sheet_data.
  destruct (_sheet_data st); [exact H|]. simpl.
  destruct (api_values st) as [[|h rest]|e]; exact H.
Qed.

Lemma setitem_writeouts (c : config) (W : list (string * list row)) i r :
  preserves (λ st, writeouts st = W) (setitem c i r).
Proof.
  unfold setitem. apply preserves_bind; [apply sheet_data_writeouts|].
  intros d. destruct (decide (i < length d)%nat); now intros st H.
Qed.

Lemma append_writeouts (c : config) (W : list (string * list row)) r :
  preserves (λ st, writeouts st = W) (append c r).
Proof.
  unfold append. apply preserves_bind; [apply sheet_data_writeouts|].
  now intros d st H.
Qed.

(** [upsert_data] sends nothing. *)
Lemma upsert_data_writeouts (c : config) (data : dict) (st : session) :
  writeouts (upsert_data c data st).2 = writeouts st.
Proof.
  apply (upsert_data_kept c (λ s, writeouts s = writeouts st));
    [apply sheet_data_writeouts|intros; apply setitem_writeouts
    |intros; apply append_writeouts|now intros m s H|reflexivity].
Qed.

Lemma writeout_if_due_writeouts (c : config) cols_start cols_end rows_start
    (i : nat) (lw lw' : Z) st st' :
  writeout_if_due c cols_start cols_end rows_start i lw st = (Ok lw', st') →
  (¬ due c (Z.of_nat i) ∧ writeouts st' = writeouts st)
  ∨ (due c (Z.of_nat i) ∧ ∃ w, writeouts st' = writeouts st ++ [w]).
Proof.
  unfold writeout_if_due, due. destruct (0 <? Z.of_nat i) eqn:Hi.
  2:{ intros [= _ <-]. left. split; [lia|reflexivity]. }
  intros H. apply bind_ok_inv in H as [m [st1 [Hm H]]].
  unfold lift, py_mod in Hm.
  destruct (batch_size c =? 0) eqn:Hb; [discriminate|].
  injection Hm as <- <-.
  destruct (Z.of_nat i mod batch_size c =? 0) eqn:Hmod.
  - apply bind_ok_inv in H as [[] [st2 [Hp H]]]. injection H as _ <-.
    unfold periodic_writeout in Hp.
    apply bind_ok_inv in Hp as [d [st3 [Hd Hw]]]. injection Hw as <-.
    right. split; [repeat split; lia|].
    eexists. simpl.
    pose proof (sheet_data_writeouts c (writeouts st) st eq_refl) as Hs.
    rewrite Hd in Hs. simpl in Hs. now rewrite Hs.
  - injection H as _ <-. left. split; [lia|reflexivity].
Qed.

(** The loop sends one write-out for each due index. *)
Lemma upsert_loop_writeouts (c : config) push_fields cols_start cols_end
    rows_start (queryset : list dict) :
  ∀ (i : nat) (lw lw' : Z) st st',
    upsert_loop c push_fields cols_start cols_end rows_start i lw queryset st
    = (Ok lw', st') →
    ∃ flushes,
      writeouts st' = writeouts st ++ flushes
      ∧ length flushes = length (due_indices c i (length queryset)).
Proof.
  induction queryset as [|obj queryset IH]; intros i lw lw' st st' H.
  - injection H as _ <-. exists []. split; [now rewrite app_nil_r|reflexivity].
  - simpl in H. apply bind_ok_inv in H as [lw1 [st1 [H1 H]]].
    apply bind_ok_inv in H as [data [st2 [Hl H]]]. injection Hl as _ <-.
    apply bind_ok_inv in H as [[] [st3 [Hu H]]].
    apply IH in H as [flushes [Hw Hf]].
    pose proof (upsert_data_writeouts c data st1) as Hsame.
    rewrite Hu in Hsame. simpl in Hsame. rewrite Hsame in Hw.
    apply writeout_if_due_writeouts in H1.
    unfold due_indices. simpl seq. simpl map.
    destruct H1 as [[Hnot Hw1]|[Hdue [w Hw1]]].
    + rewrite filter_cons_False by exact Hnot.
      exists flushes. split; [now rewrite Hw, Hw1|exact Hf].
    + rewrite filter_cons_True by exact Hdue.
      exists (w :: flushes). split; [|simpl; now rewrite Hf].
      rewrite Hw, Hw1. now rewrite <- app_assoc.
Qed.

(** ** The column bounds of a range *)

Lemma stops_upper_after_digits (r rest : string) :
  all_chars is_digit r = true → stops is_upper (r +:+ ":" +:+ rest).
Proof.
  destruct r as [|a r]; [reflexivity|]. rewrite append_cons. simpl.
  intros H. apply andb_prop in H as [H _]. now apply digit_not_upper.
Qed.

Lemma col_pattern_head (cols1 row1 cols2 row2 : string) :
  all_chars is_upper cols1 = true → nonempty cols1 = true →
  all_chars is_digit row1 = true →
  all_chars is_upper cols2 = true → nonempty cols2 = true →
  all_chars is_digit row2 = true →
  Re.search col_pattern (cols1 +:+ row1 +:+ ":" +:+ cols2 +:+ row2)
  = Some [cols1; cols2].
Proof.
  intros Hc1 Nc1 Hr1 Hc2 Nc2 Hr2.
  destruct (matches_plus_run is_upper cols1 (row1 +:+ ":" +:+ cols2 +:+ row2))
    as [t1 E1]; [assumption..|now apply stops_upper_after_digits|].
  apply (matches_group_head (Re.Plus is_upper)) in E1 as [t1' E1].
  destruct (matches_star_run is_digit row1 (":" +:+ cols2 +:+ row2))
    as [t2 E2]; [assumption|reflexivity|].
  pose proof (matches_chr_head ":" (cols2 +:+ row2)) as E3.
  destruct (matches_plus_run is_upper cols2 row2)
    as [t4 E4]; [assumption..|now apply stops_digits_or_end_upper|].
  apply (matches_group_head (Re.Plus is_upper)) in E4 as [t4' E4].
  destruct (matches_star_run is_digit row2 "") as [t5 E5]; [assumption|exact I|].
  rewrite append_empty_r in E5.
  destruct (matches_seq_head _ _ _ _ _ _ _ E4 E5) as [t6 E6].
  destruct (matches_seq_head _ _ _ _ _ _ _ E3 E6) as [t7 E7].
  destruct (matches_seq_head _ _ _ _ _ _ _ E2 E7) as [t8 E8].
  destruct (matches_seq_head _ _ _ _ _ _ _ E1 E8) as [t9 E9].
  fold col_pattern in E9. now rewrite (search_head _ _ _ _ E9).
Qed.

(** On a range [COLS ROW : COLS ROW], where either row number may be
    missing, alone or behind a sheet name without colon,
    [sheet_range_cols] returns the two groups of capital letters, whatever
    [max_col] is. *)
Theorem sheet_range_cols_bounds (pre cols1 row1 cols2 row2 mc : string) :
  sheet_prefix pre →
  all_chars is_upper cols1 = true → nonempty cols1 = true →
  all_chars is_digit row1 = true →
  all_chars is_upper cols2 = true → nonempty cols2 = true →
  all_chars is_digit row2 = true →
  parse_col_bounds (pre +:+ cols1 +:+ row1 +:+ ":" +:+ cols2 +:+ row2) mc
  = Ok (cols1, cols2).
Proof.
  intros Hpre Hc1 Nc1 Hr1 Hc2 Nc2 Hr2. unfold parse_col_bounds.
  rewrite (search_prefix _ _ _ (col_pattern_guarded _) Hpre).
  now rewrite col_pattern_head.
Qed.

Lemma sheet_range_cols_bounds_witness :
  sheet_range_cols
    (Config "Sheet1" "B1:D1" "id" "Django GUID" 500 30000 "Z") = Ok ("B", "D")
  ∧ sheet_range_cols default_config = Ok ("A", "Z").
Proof.
  assert (Hpre : sheet_prefix "Sheet1!").
  { right. exists "Sheet1". split; reflexivity. }
  split.
  - exact (sheet_range_cols_bounds "Sheet1!" "B" "1" "D" "1" "Z" Hpre
             eq_refl eq_refl eq_refl eq_refl eq_refl eq_refl).
  - exact (sheet_range_cols_bounds "Sheet1!" "A" "1" "Z" "" "Z" Hpre
             eq_refl eq_refl eq_refl eq_refl eq_refl eq_refl).
Defined.

(** * Further properties of the snapshot *)

(** ** A sheet without values, and a fetch that raises *)

(** On a sheet for which the client reports no values, the first read of
    [sheet_data] raises [IndexError], but it has already cached the empty
    list: every later read returns the empty list, without raising and
    without another fetch, while the header row stays [None], so that
    [column_index] raises [AttributeError] and [upsert_data] with it. *)
Theorem sheet_data_empty_sheet (c : config) (st : session) :
  _sheet_data st = None → _sheet_headers st = None → api_values st = Ok [] →
  let st1 := (sheet_data c st).2 in
  (sheet_data c st).1 = Err IndexError
  ∧ fetches st1 = S (fetches st)
  ∧ _sheet_data st1 = Some []
  ∧ _sheet_headers st1 = None
  ∧ sheet_data c st1 = (Ok [], st1)
  ∧ sheet_headers c st1 = (Ok None, st1)
  ∧ (∀ f, column_index c f st1 = (Err AttributeError, st1))
  ∧ (∀ data, keys data ≠ [] → upsert_data c data st1 = (Err AttributeError, st1)).
Proof.
  intros Hd Hh Ha st1.
  assert (E : sheet_data c st
              = (Err IndexError, set_sheet_data (Some []) (count_fetch st))).
  { unfold sheet_data. rewrite Hd. simpl. now rewrite Ha. }
  subst st1. rewrite E. simpl.
  set (st1 := set_sheet_data (Some []) (count_fetch st)).
  assert (Hd1 : _sheet_data st1 = Some []) by reflexivity.
  assert (Hh1 : _sheet_headers st1 = None) by exact Hh.
  assert (Hc : ∀ f, column_index c f st1 = (Err AttributeError, st1)).
  { intros f. now rewrite (column_index_cached c f st1 [] Hd1), Hh1. }
  split; [reflexivity|]. split; [reflexivity|]. split; [reflexivity|].
  split; [exact Hh1|]. split; [now apply sheet_data_cached|].
  split; [now rewrite (sheet_headers_cached c st1 [] Hd1), Hh1|].
  split; [exact Hc|].
  intros data Hk. unfold upsert_data.
  destruct data as [|[f v] data]; [now destruct Hk|]. simpl.
  unfold bind at 1. unfold bind at 1. unfold try_except, bind.
  now rewrite Hc.
Qed.

Lemma sheet_data_empty_sheet_witness :
  let st1 := (sheet_data default_config (fresh (Ok []))).2 in
  (sheet_data default_config (fresh (Ok []))).1 = Err IndexError
  ∧ sheet_data default_config st1 = (Ok [], st1)
  ∧ fetches st1 = 1%nat.
Proof.
  intros st1.
  destruct (sheet_data_empty_sheet default_config (fresh (Ok []))
              eq_refl eq_refl eq_refl) as [H1 [H2 [_ [_ [H5 _]]]]].
  split; [exact H1|]. split; [exact H5|exact H2].
Defined.

(** When the request for the values raises, nothing is cached: each read of
    [sheet_data] sends the request again and raises the same exception. *)
Theorem sheet_data_error_not_cached (c : config) (st : session) (e : exn)
    (n : nat) :
  _sheet_data st = None → api_values st = Err e →
  let st' := Nat.iter n (λ s, (sheet_data c s).2) st in
  fetches st' = (fetches st + n)%nat
  ∧ _sheet_data st' = None
  ∧ _sheet_headers st' = _sheet_headers st
  ∧ (sheet_data c st').1 = Err e.
Proof.
  intros Hd Ha. induction n as [|n IH]; simpl.
  - repeat split; [lia|assumption|]. unfold sheet_data. rewrite Hd. simpl.
    now rewrite Ha.
  - destruct IH as [Hf [Hd' [Hh' He]]].
    set (s := Nat.iter n (λ s, (sheet_data c s).2) st) in *.
    assert (Ha' : api_values s = Err e).
    { clear -Ha. subst s. induction n as [|n IH]; simpl; [exact Ha|].
      set (s := Nat.iter n _ st) in *. unfold sheet_data.
      destruct (_sheet_data s); [exact IH|]. simpl. rewrite IH. exact IH. }
    assert (E : sheet_data c s = (Err e, count_fetch s)).
    { unfold sheet_data. rewrite Hd'. simpl. now rewrite Ha'. }
    rewrite E. simpl. repeat split; [lia|assumption..|].
    unfold sheet_data. simpl. rewrite Hd'. simpl. now rewrite Ha'.
Qed.

Lemma sheet_data_error_not_cached_witness :
  let st' := Nat.iter 3 (λ s, (sheet_data default_config s).2)
               (fresh (Err HttpError)) in
  fetches st' = 3%nat ∧ (sheet_data default_config st').1 = Err HttpError.
Proof.
  intros st'.
  destruct (sheet_data_error_not_cached default_config (fresh (Err HttpError))
              HttpError 3 eq_refl eq_refl) as [H1 [_ [_ H4]]].
  split; [exact H1|exact H4].
Defined.

(** ** [column_index] on a cached snapshot *)

(** On a session that holds the header row, [column_index] leaves the
    session as it is; it raises [ValueError] exactly for a field that is no
    entry of the header row, and the offset it returns otherwise is one at
    which the header row holds the field. *)
Theorem column_index_cached_result (c : config) (f : string) (st : session)
    (hs : row) (d : list row) :
  _sheet_data st = Some d → _sheet_headers st = Some hs →
  (column_index c f st).2 = st
  ∧ ((column_index c f st).1 = Err ValueError ↔ VStr f ∉ hs)
  ∧ (∀ i, (column_index c f st).1 = Ok i → hs !! i = Some (VStr f))
  ∧ (∀ e, (column_index c f st).1 = Err e → e = ValueError).
Proof.
  intros Hd Hh. rewrite (column_index_cached c f st d Hd), Hh. simpl.
  split; [reflexivity|].
  destruct (index (VStr f) hs) as [i|e] eqn:E.
  - pose proof (index_in _ _ _ E) as Hin.
    repeat split; try discriminate.
    + intros Hno. now destruct (Hno Hin).
    + intros j [= <-]. unfold index in E.
      destruct (list_find (λ y, y = VStr f) hs) as [[k y]|] eqn:Ef; [|discriminate].
      injection E as ->. now apply list_find_Some in Ef as [Hl [-> _]].
  - apply index_not_in in E as [Hno ->].
    repeat split; try discriminate; auto. now intros e [= <-].
Qed.

Lemma column_index_cached_result_witness :
  let st := (sheet_data default_config (fresh alice_sheet)).2 in
  (column_index default_config "Age" st).1 = Err ValueError
  ∧ (column_index default_config "Age" st).2 = st.
Proof.
  intros st.
  destruct (column_index_cached_result default_config "Age" st name_id_headers
              [[VStr "Alice"; VStr "id-1"]] eq_refl eq_refl) as [H1 [H2 _]].
  split; [|exact H1]. apply H2.
  intros H. apply list_elem_of_In in H. simpl in H.
  destruct H as [H|[H|[]]]; discriminate.
Defined.

(** ** What [existing_row] returns *)

Lemma differs_before_cons (ix : nat) (v cell : value) (r : row)
    (d : list row) (k : nat) :
  r !! ix = Some cell → cell ≠ v →
  differs_before ix v d k → differs_before ix v (r :: d) (S k).
Proof.
  intros Hc Hne H [|k'] r' Hk Hl; simpl in Hl.
  - injection Hl as <-. eauto.
  - apply (H k' r'); [lia|exact Hl].
Qed.

(** The scan read backwards: what each outcome says about the rows. *)
Lemma scan_rows_inv (ix : nat) (v : value) (d : list row) :
  ∀ i,
    match scan_rows ix v i d with
    | Ok (Some j) =>
        ∃ k r, j = (i + k)%nat ∧ d !! k = Some r ∧ r !! ix = Some v
               ∧ differs_before ix v d k
    | Ok None => Forall (λ r, ∃ cell, r !! ix = Some cell ∧ cell ≠ v) d
    | Err e =>
        e = IndexError
        ∧ ∃ k r, d !! k = Some r ∧ r !! ix = None ∧ differs_before ix v d k
    end.
Proof.
  induction d as [|r d IH]; intros i; simpl; [constructor|].
  unfold getitem. destruct (r !! ix) as [cell|] eqn:Hc; simpl.
  - destruct (decide (cell = v)) as [->|Hne].
    + exists 0%nat, r. repeat split; [lia|exact Hc|]. intros k' r' Hk. lia.
    + specialize (IH (S i)). destruct (scan_rows ix v (S i) d) as [[j|]|e].
      * destruct IH as [k [r0 [-> [Hl [Hr Hb]]]]].
        exists (S k), r0. repeat split; [lia|exact Hl|exact Hr|].
        now apply differs_before_cons with cell.
      * constructor; eauto.
      * destruct IH as [-> [k [r0 [Hl [Hr Hb]]]]]. split; [reflexivity|].
        exists (S k), r0. repeat split; [exact Hl|exact Hr|].
        now apply differs_before_cons with cell.
  - split; [reflexivity|]. exists 0%nat, r. repeat split; [exact Hc|].
    intros k' r' Hk. lia.
Qed.

(** On a session that holds the header row and the rows, with the
    identifier [v] in the data and the hidden identifier column at offset
    [ix]: [existing_row] leaves the session as it is.  The offset it returns
    is that of the first row with [v] in that column; [None] means that
    every row has another cell there; and it raises only [IndexError], at a
    row too short to have the column, no row before it holding [v]. *)
Theorem existing_row_result (c : config) (data : dict) (st : session)
    (hs : row) (d : list row) (v : value) (ix : nat) :
  _sheet_data st = Some d → _sheet_headers st = Some hs →
  dict_get (model_id_field c) data = Some v →
  index (VStr (sheet_id_field c)) hs = Ok ix →
  (existing_row c data st).2 = st
  ∧ match (existing_row c data st).1 with
    | Ok (Some j) =>
        ∃ r, d !! j = Some r ∧ r !! ix = Some v ∧ differs_before ix v d j
    | Ok None => Forall (λ r, ∃ cell, r !! ix = Some cell ∧ cell ≠ v) d
    | Err e =>
        e = IndexError
        ∧ ∃ k r, d !! k = Some r ∧ (length r ≤ ix)%nat
                 ∧ differs_before ix v d k
    end.
Proof.
  intros Hd Hh Hv Hix. rewrite (existing_row_cached c data st d Hd), Hh.
  simpl. split; [reflexivity|].
  rewrite (lookup_row_scan c data hs d v ix Hv Hix).
  pose proof (scan_rows_inv ix v d 0) as H.
  destruct (scan_rows ix v 0 d) as [[j|]|e]; [|exact H|].
  - destruct H as [k [r [-> H]]]. now exists r.
  - destruct H as [-> [k [r [Hl [Hr Hb]]]]]. split; [reflexivity|].
    exists k, r. repeat split; [exact Hl| |exact Hb].
    now apply lookup_ge_None.
Qed.

(** A row that the client returned without its trailing empty cells: the
    scan raises [IndexError] on it. *)
Lemma existing_row_result_witness :
  let values := Ok [name_id_headers; [VStr "Carol"]; [VStr "Alice"; VStr "id-1"]] in
  let st := (sheet_data default_config (fresh values)).2 in
  (existing_row default_config (instance "id-1" "Alicia") st).2 = st
  ∧ (existing_row default_config (instance "id-1" "Alicia") st).1
    = Err IndexError.
Proof.
  intros values st.
  destruct (existing_row_result default_config (instance "id-1" "Alicia") st
              name_id_headers [[VStr "Carol"]; [VStr "Alice"; VStr "id-1"]]
              (VStr "id-1") 1 eq_refl eq_refl eq_refl eq_refl) as [H1 H2].
  split; [exact H1|reflexivity].
Defined.

(** An identifier that is an [int] equals no [str]: when the hidden
    identifier column holds strings, as in the values the client reports,
    [existing_row] finds no row and [upsert_data] appends one, even when a
    row shows the same number. *)
Theorem upsert_data_int_identifier (c : config) (data : dict) (st : session)
    (hs : row) (d : list row) (n : Z) (ix : nat) :
  _sheet_data st = Some d → _sheet_headers st = Some hs →
  dict_get (model_id_field c) data = Some (VInt n) →
  index (VStr (sheet_id_field c)) hs = Ok ix →
  Forall (λ r, ∃ s, r !! ix = Some (VStr s)) d →
  existing_row c data st = (Ok None, st)
  ∧ (upsert_data c data st).1 = Ok tt
  ∧ _sheet_data (upsert_data c data st).2 = Some (d ++ [row_of c hs data]).
Proof.
  intros Hd Hh Hv Hix Hstr.
  assert (Hscan : scan_rows ix (VInt n) 0 d = Ok None).
  { apply scan_rows_none. eapply Forall_impl; [exact Hstr|].
    intros r [s Hs]. exists (VStr s). split; [exact Hs|discriminate]. }
  split.
  - rewrite (existing_row_cached c data st d Hd), Hh.
    now rewrite (lookup_row_scan c data hs d _ ix Hv Hix), Hscan.
  - rewrite (upsert_data_cached c data st hs d Hd Hh).
    rewrite (lookup_row_scan c data hs d _ ix Hv Hix), Hscan. simpl. auto.
Qed.

Lemma upsert_data_int_identifier_witness :
  let values := Ok [name_id_headers; [VStr "Alice"; VStr "7"]] in
  let st := (sheet_data default_config (fresh values)).2 in
  let data := [("id", VInt 7); ("Name", VStr "Alice")] in
  existing_row default_config data st = (Ok None, st)
  ∧ _sheet_data (upsert_data default_config data st).2
    = Some [[VStr "Alice"; VStr "7"]; [VStr "Alice"; VInt 7]].
Proof.
  intros values st data.
  destruct (upsert_data_int_identifier default_config data st name_id_headers
              [[VStr "Alice"; VStr "7"]] 7 1 eq_refl eq_refl eq_refl eq_refl)
    as [H1 [_ H3]].
  - repeat constructor. now exists "7".
  - split; [exact H1|exact H3].
Defined.

(** * Further properties of [upsert_data] *)

(** ** What it touches, and how it fails *)

(** On a session that holds the header row [hs] and the rows [d],
    [upsert_data] changes nothing but the log and one row of the cache: the
    header row, the fetch counter and the write-outs are as before; when it
    raises, the rows are as before; when it returns, the rows are [d] with
    the row built appended, or [d] with one row replaced by it and every
    other row in place.  It raises [KeyError] when the data lack the
    identifier, and [ValueError] when the data have it but the header row
    has no hidden identifier column. *)
Theorem upsert_data_touches_one_row (c : config) (data : dict) (st : session)
    (hs : row) (d : list row) :
  _sheet_data st = Some d → _sheet_headers st = Some hs →
  let r := upsert_data c data st in
  _sheet_headers r.2 = Some hs
  ∧ fetches r.2 = fetches st
  ∧ writeouts r.2 = writeouts st
  ∧ (r.1 ≠ Ok tt → _sheet_data r.2 = Some d)
  ∧ (r.1 = Ok tt →
     _sheet_data r.2 = Some (d ++ [row_of c hs data])
     ∨ ∃ j, (j < length d)%nat
            ∧ _sheet_data r.2 = Some (<[j:=row_of c hs data]> d)
            ∧ ∀ k, k ≠ j → <[j:=row_of c hs data]> d !! k = d !! k)
  ∧ (dict_get (model_id_field c) data = None → r.1 = Err KeyError)
  ∧ (is_Some (dict_get (model_id_field c) data) →
     VStr (sheet_id_field c) ∉ hs → r.1 = Err ValueError).
Proof.
  intros Hd Hh r. subst r. rewrite (upsert_data_cached c data st hs d Hd Hh).
  cbv zeta.
  assert (Hk : dict_get (model_id_field c) data = None →
               lookup_row c data (Some hs) d = Err KeyError).
  { intros H. unfold lookup_row, dict_item. now rewrite H. }
  assert (Hv : is_Some (dict_get (model_id_field c) data) →
               VStr (sheet_id_field c) ∉ hs →
               lookup_row c data (Some hs) d = Err ValueError).
  { intros [v H] Hno. unfold lookup_row, dict_item. rewrite H. simpl.
    destruct (index (VStr (sheet_id_field c)) hs) as [ix|e] eqn:E.
    - apply index_in in E. now destruct (Hno E).
    - now apply index_not_in in E as [_ ->]. }
  destruct (lookup_row c data (Some hs) d) as [[j|]|e] eqn:El.
  - destruct (decide (j < length d)%nat) as [Hj|Hj]; simpl.
    + repeat split; try assumption; try congruence.
      * intros _. right. exists j. repeat split; [exact Hj|].
        intros k Hne. now apply list_lookup_insert_ne.
      * intros H. now apply Hk in H.
      * intros H1 H2. now specialize (Hv H1 H2).
    + repeat split; try assumption; try congruence.
      * intros H. now apply Hk in H.
      * intros H1 H2. now specialize (Hv H1 H2).
  - simpl. repeat split; try assumption; try congruence.
    + intros _. now left.
    + intros H. now apply Hk in H.
    + intros H1 H2. now specialize (Hv H1 H2).
  - simpl. repeat split; try assumption; try congruence.
    + intros H. apply Hk in H. congruence.
    + intros H1 H2. specialize (Hv H1 H2). congruence.
Qed.

Lemma upsert_data_touches_one_row_witness :
  let st := (sheet_data default_config (fresh alice_sheet)).2 in
  let r := upsert_data default_config [("Name", VStr "Bob")] st in
  r.1 = Err KeyError ∧ _sheet_data r.2 = Some [[VStr "Alice"; VStr "id-1"]].
Proof.
  intros st r.
  destruct (upsert_data_touches_one_row default_config [("Name", VStr "Bob")] st
              name_id_headers [[VStr "Alice"; VStr "id-1"]] eq_refl eq_refl)
    as [_ [_ [_ [H4 [_ [H6 _]]]]]].
  split; [exact (H6 eq_refl)|]. apply H4. vm_compute. discriminate.
Defined.

(** ** Pushing the same data twice *)

(** After [upsert_data] has stored a row that holds the identifier in the
    hidden identifier column, the scan finds that row. *)
Lemma upsert_data_then_scan (c : config) (data : dict) (st st1 : session)
    (hs : row) (d : list row) (v : value) (ix : nat) :
  _sheet_data st = Some d → _sheet_headers st = Some hs →
  dict_get (model_id_field c) data = Some v →
  index (VStr (sheet_id_field c)) hs = Ok ix →
  row_of c hs data !! ix = Some v →
  upsert_data c data st = (Ok tt, st1) →
  ∃ d1 j, _sheet_data st1 = Some d1 ∧ _sheet_headers st1 = Some hs
          ∧ scan_rows ix v 0 d1 = Ok (Some j)
          ∧ d1 !! j = Some (row_of c hs data).
Proof.
  intros Hd Hh Hv Hix Hrow H.
  rewrite (upsert_data_cached c data st hs d Hd Hh) in H. cbv zeta in H.
  rewrite (lookup_row_scan c data hs d v ix Hv Hix) in H.
  pose proof (scan_rows_inv ix v d 0) as Hinv.
  set (row := row_of c hs data) in *.
  destruct (scan_rows ix v 0 d) as [[j|]|e]; [| |discriminate].
  - destruct Hinv as [k [r [-> [Hl [Hr Hb]]]]]. simpl in H.
    destruct (decide (k < length d)%nat) as [Hk|]; [|discriminate].
    injection H as <-. exists (<[k:=row]> d), k.
    assert (Hlk : <[k:=row]> d !! k = Some row)
      by now apply list_lookup_insert_eq.
    repeat split; [exact Hh| |exact Hlk].
    apply (scan_rows_found ix v _ k row 0 Hlk Hrow).
    intros k' r' Hk' Hl'. apply (Hb k' r' Hk').
    rewrite list_lookup_insert_ne in Hl' by lia. exact Hl'.
  - simpl in H. injection H as <-. exists (d ++ [row]), (length d).
    assert (Hlk : (d ++ [row]) !! length d = Some row)
      by now apply list_lookup_middle.
    repeat split; [exact Hh| |exact Hlk].
    apply (scan_rows_found ix v _ (length d) row 0 Hlk Hrow).
    intros k' r' Hk' Hl'. rewrite lookup_app_l in Hl' by exact Hk'.
    rewrite Forall_forall in Hinv. apply Hinv.
    now apply list_elem_of_lookup_2 in Hl'.
Qed.

(** When the row built holds the identifier in the hidden identifier
    column, a second [upsert_data] with the same data finds the row the
    first one stored and stores the same row over it: the rows after the
    second call are the rows after the first. *)
Theorem upsert_data_twice (c : config) (data : dict) (st st1 : session)
    (hs : row) (d : list row) (v : value) (ix : nat) :
  _sheet_data st = Some d → _sheet_headers st = Some hs →
  dict_get (model_id_field c) data = Some v →
  index (VStr (sheet_id_field c)) hs = Ok ix →
  row_of c hs data !! ix = Some v →
  upsert_data c data st = (Ok tt, st1) →
  (upsert_data c data st1).1 = Ok tt
  ∧ _sheet_data (upsert_data c data st1).2 = _sheet_data st1
  ∧ _sheet_headers (upsert_data c data st1).2 = _sheet_headers st1.
Proof.
  intros Hd Hh Hv Hix Hrow H.
  destruct (upsert_data_then_scan c data st st1 hs d v ix Hd Hh Hv Hix Hrow H)
    as [d1 [j [Hd1 [Hh1 [Hscan Hl]]]]].
  rewrite (upsert_data_cached c data st1 hs d1 Hd1 Hh1). cbv zeta.
  rewrite (lookup_row_scan c data hs d1 v ix Hv Hix), Hscan.
  rewrite decide_True by (apply lookup_lt_is_Some; eauto).
  simpl. rewrite Hd1, Hh1. now rewrite (list_insert_id _ _ _ Hl).
Qed.

(** The row [upsert_data] stored is the row [existing_row] finds for the
    same data afterwards, provided the row holds the identifier in the
    hidden identifier column. *)
Theorem existing_row_after_upsert (c : config) (data : dict) (st st1 : session)
    (hs : row) (d : list row) (v : value) (ix : nat) :
  _sheet_data st = Some d → _sheet_headers st = Some hs →
  dict_get (model_id_field c) data = Some v →
  index (VStr (sheet_id_field c)) hs = Ok ix →
  row_of c hs data !! ix = Some v →
  upsert_data c data st = (Ok tt, st1) →
  ∃ d1 j, _sheet_data st1 = Some d1
          ∧ existing_row c data st1 = (Ok (Some j), st1)
          ∧ d1 !! j = Some (row_of c hs data).
Proof.
  intros Hd Hh Hv Hix Hrow H.
  destruct (upsert_data_then_scan c data st st1 hs d v ix Hd Hh Hv Hix Hrow H)
    as [d1 [j [Hd1 [Hh1 [Hscan Hl]]]]].
  exists d1, j. repeat split; [exact Hd1| |exact Hl].
  rewrite (existing_row_cached c data st1 d1 Hd1), Hh1.
  now rewrite (lookup_row_scan c data hs d1 v ix Hv Hix), Hscan.
Qed.

Lemma existing_row_after_upsert_witness :
  let st := (sheet_data default_config (fresh alice_sheet)).2 in
  let st1 := (upsert_data default_config (instance "id-2" "Bob") st).2 in
  ∃ d1 j, _sheet_data st1 = Some d1
          ∧ existing_row default_config (instance "id-2" "Bob") st1
            = (Ok (Some j), st1)
          ∧ d1 !! j = Some (row_of default_config name_id_headers
                              (instance "id-2" "Bob")).
Proof.
  intros st st1.
  exact (existing_row_after_upsert default_config (instance "id-2" "Bob") st st1
           name_id_headers [[VStr "Alice"; VStr "id-1"]] (VStr "id-2") 1
           eq_refl eq_refl eq_refl eq_refl eq_refl eq_refl).
Defined.

Lemma upsert_data_twice_witness :
  let st := (sheet_data default_config (fresh alice_sheet)).2 in
  let st1 := (upsert_data default_config (instance "id-2" "Bob") st).2 in
  (upsert_data default_config (instance "id-2" "Bob") st1).1 = Ok tt
  ∧ _sheet_data (upsert_data default_config (instance "id-2" "Bob") st1).2
    = _sheet_data st1.
Proof.
  intros st st1.
  destruct (upsert_data_twice default_config (instance "id-2" "Bob") st st1
              name_id_headers [[VStr "Alice"; VStr "id-1"]] (VStr "id-2") 1
              eq_refl eq_refl eq_refl eq_refl eq_refl eq_refl) as [H1 [H2 _]].
  split; [exact H1|exact H2].
Defined.

(** ** Rows built when every column has its field *)

Lemma lookup_map {A B} (f : A → B) (l : list A) (i : nat) :
  map f l !! i = f <$> l !! i.
Proof.
  revert i. induction l as [|x l IH]; intros [|i]; simpl; auto.
Qed.

Lemma resolved_pairs (c : config) (hs : row) (fields : list string) :
  ∀ f i, f ∈ fields → resolve c hs f = Some i →
         (f, i) ∈ resolved c hs fields.
Proof.
  induction fields as [|g fields IH]; intros f i Hf Hr.
  - now apply elem_of_nil in Hf.
  - simpl. apply elem_of_cons in Hf as [<-|Hf].
    + rewrite Hr. now left.
    + destruct (resolve c hs g); [right|]; now apply IH.
Qed.

Lemma insert_by_ix_sorted (x : string * nat) (l : list (string * nat)) :
  Sorted le (map snd l) → Sorted le (map snd (insert_by_ix x l)).
Proof.
  induction l as [|y l IH]; intros Hs; simpl.
  - repeat constructor.
  - destruct (x.2 <=? y.2)%nat eqn:E.
    + apply Nat.leb_le in E. simpl. constructor; [exact Hs|now constructor].
    + apply Nat.leb_gt in E. simpl in *.
      apply Sorted_inv in Hs as [Hs Hhd]. constructor; [now apply IH|].
      destruct l as [|z l]; simpl.
      * constructor. lia.
      * destruct (x.2 <=? z.2)%nat; simpl; constructor; [lia|].
        now inversion Hhd.
Qed.

Lemma sorted_by_ix_sorted (l : list (string * nat)) :
  Sorted le (map snd (sorted_by_ix l)).
Proof.
  induction l as [|x l IH]; simpl; [constructor|].
  now apply insert_by_ix_sorted.
Qed.

Lemma seq_sorted (i n : nat) : Sorted le (seq i n).
Proof.
  revert i. induction n as [|n IH]; intros i; simpl; [constructor|].
  constructor; [apply IH|]. destruct n; simpl; constructor. lia.
Qed.

(** When the columns found for the pushed fields are the columns of the
    header row, each once, the row built has one cell for each column and
    holds the value of each field at the offset of its column. *)
Lemma row_of_aligned (c : config) (hs : row) (data : dict) :
  map snd (resolved c hs (keys data)) ≡ₚ seq 0 (length hs) →
  length (row_of c hs data) = length hs
  ∧ ∀ f i, f ∈ keys data → resolve c hs f = Some i →
           hs !! i = Some (VStr (header_of c f))
           ∧ ∃ v, dict_get f data = Some v ∧ row_of c hs data !! i = Some v.
Proof.
  intros Hperm.
  set (sorted := sorted_by_ix (resolved c hs (keys data))).
  assert (Hcols : map snd sorted = seq 0 (length hs)).
  { apply (Sorted_unique le); [apply sorted_by_ix_sorted|apply seq_sorted|].
    rewrite <- Hperm. apply Permutation_map, sorted_by_ix_perm. }
  pose proof (row_of_values c hs data) as Hvals.
  assert (Hlen : length (row_fields c hs data) = length hs).
  { unfold row_fields. fold sorted. rewrite length_map.
    rewrite <- (length_map snd sorted), Hcols. apply length_seq. }
  split.
  - rewrite <- Hlen. symmetry. now apply Forall2_length in Hvals.
  - intros f i Hf Hr. split.
    + unfold resolve in Hr.
      destruct (index (VStr (header_of c f)) hs) as [j|] eqn:E; [|discriminate].
      injection Hr as ->. unfold index in E.
      destruct (list_find _ hs) as [[k y]|] eqn:Ef; [|discriminate].
      injection E as ->. now apply list_find_Some in Ef as [Hl [-> _]].
    + assert (Hin : (f, i) ∈ sorted).
      { unfold sorted. rewrite sorted_by_ix_perm. now apply resolved_pairs. }
      apply list_elem_of_lookup_1 in Hin as [p Hp].
      assert (Hpi : seq 0 (length hs) !! p = Some i).
      { rewrite <- Hcols, lookup_map, Hp. reflexivity. }
      apply lookup_seq in Hpi as [Hpi _]. simpl in Hpi. subst p.
      assert (Hfi : row_fields c hs data !! i = Some f).
      { unfold row_fields. fold sorted. now rewrite lookup_map, Hp. }
      destruct (Forall2_lookup_l _ _ _ _ _ Hvals Hfi) as [v [Hv1 Hv2]].
      now exists v.
Qed.

(** The row [upsert_data] stores, when the columns its first loop finds
    for the pushed fields are the columns of the header row, each once.  On
    a session that holds the header row and the data rows, a call that
    returns has built the row from the sorted pairs of the first loop and
    stored it over the row [existing_row] found, or at the end when it found
    none; the row has one cell for each column of the header row, and for
    each pushed field it holds the field's value at the index
    [column_index] gives for the field's header. *)
Theorem upsert_data_row_aligned (c : config) (data : dict)
    (st st1 st' : session) (hs : row) (d : list row)
    (fis : list (string * nat)) :
  _sheet_data st = Some d → _sheet_headers st = Some hs →
  field_indexes c (keys data) [] st = (Ok fis, st1) →
  map snd fis ≡ₚ seq 0 (length hs) →
  upsert_data c data st = (Ok tt, st') →
  ∃ r, row_values data (sorted_by_ix fis) = Ok r
       ∧ match (existing_row c data st).1 with
         | Ok (Some j) =>
             (j < length d)%nat ∧ _sheet_data st' = Some (<[j:=r]> d)
         | Ok None => _sheet_data st' = Some (d ++ [r])
         | Err _ => False
         end
       ∧ length r = length hs
       ∧ ∀ f i, f ∈ keys data →
                (column_index c (header_of c f) st).1 = Ok i →
                hs !! i = Some (VStr (header_of c f))
                ∧ ∃ v, dict_get f data = Some v ∧ r !! i = Some v.
Proof.
  intros Hd Hh Hfis Hperm H.
  rewrite (field_indexes_cached c hs d (keys data) [] st Hd Hh) in Hfis.
  injection Hfis as <- _. simpl in Hperm.
  destruct (row_of_aligned c hs data Hperm) as [Hlen Hcells].
  exists (row_of c hs data). split; [apply row_values_row_of|].
  split; [|split; [exact Hlen|]].
  - rewrite (existing_row_cached c data st d Hd), Hh. simpl.
    rewrite (upsert_data_cached c data st hs d Hd Hh) in H. simpl in H.
    destruct (lookup_row c data (Some hs) d) as [[j|]|e]; [| |discriminate].
    + destruct (decide (j < length d)%nat) as [Hj|]; [|discriminate].
      injection H as <-. split; [exact Hj|reflexivity].
    + injection H as <-. reflexivity.
  - intros f i Hf Hi. apply Hcells; [exact Hf|].
    rewrite (column_index_cached c _ st d Hd), Hh in Hi. simpl in Hi.
    unfold resolve. now rewrite Hi.
Qed.

Lemma upsert_data_row_aligned_witness :
  let st := (sheet_data default_config (fresh alice_sheet)).2 in
  let data := instance "id-1" "Alicia" in
  ∃ r, _sheet_data (upsert_data default_config data st).2 = Some [r]
       ∧ length r = 2%nat
       ∧ r !! 1%nat = Some (VStr "id-1")
       ∧ r !! 0%nat = Some (VStr "Alicia").
Proof.
  intros st data.
  destruct (upsert_data_row_aligned default_config data st
              (field_indexes default_config (keys data) [] st).2
              (upsert_data default_config data st).2
              name_id_headers [[VStr "Alice"; VStr "id-1"]]
              [("id", 1%nat); ("Name", 0%nat)]
              eq_refl eq_refl eq_refl (Permutation_swap _ _ _) eq_refl)
    as [r [_ [Hst [Hlen Hcells]]]].
  exists r. hnf in Hst. destruct Hst as [_ Hst].
  split; [exact Hst|]. split; [exact Hlen|]. split.
  - destruct (Hcells "id" 1%nat) as [_ [v [Hv Hr]]];
      [now left|reflexivity|].
    injection Hv as <-. exact Hr.
  - destruct (Hcells "Name" 0%nat) as [_ [v [Hv Hr]]];
      [right; now left|reflexivity|].
    injection Hv as <-. exact Hr.
Defined.

(** * Further properties of the range addressing *)

(** ** A range without colon *)

Lemma all_chars_app (cls : ascii → bool) (a b : string) :
  all_chars cls (a +:+ b) = all_chars cls a && all_chars cls b.
Proof.
  induction a as [|x a IH]; [reflexivity|].
  rewrite append_cons. simpl. now rewrite IH, andb_assoc.
Qed.

Lemma no_colon_tail (a : ascii) (t : string) :
  all_chars not_colon (String a t) = true → all_chars not_colon t = true.
Proof. simpl. intros H. now apply andb_prop in H as [_ H]. Qed.

Lemma no_colon_chr_nil (r : Re.regex) (y : string) :
  all_chars not_colon y = true → Re.matches (Re.Seq (Re.Chr ":") r) y = [].
Proof.
  intros Hy. apply matches_seq_first_nil. destruct y as [|b y]; [reflexivity|].
  apply matches_chr_other. simpl in Hy. apply andb_prop in Hy as [Hb _].
  unfold not_colon in Hb. now apply negb_true_iff in Hb.
Qed.

Lemma no_colon_search_none (x : string) :
  all_chars not_colon x = true →
  Re.search row_pattern x = None ∧ Re.search col_pattern x = None.
Proof.
  intros Hx. split.
  - apply (search_none (λ y, all_chars not_colon y = true));
      [apply no_colon_tail| |exact Hx].
    intros y Hy. unfold row_pattern.
    apply (matches_seq_nil (λ y, all_chars not_colon y = true));
      [intros a t H _; now apply no_colon_tail with a| |exact Hy].
    intros z Hz.
    apply (matches_seq_nil (λ y, all_chars not_colon y = true));
      [intros a t H _; now apply no_colon_tail with a| |exact Hz].
    intros w Hw. now apply no_colon_chr_nil.
  - apply (search_none (λ y, all_chars not_colon y = true));
      [apply no_colon_tail| |exact Hx].
    intros y Hy. unfold col_pattern.
    apply (matches_seq_nil (λ y, all_chars not_colon y = true));
      [intros a t H _; now apply no_colon_tail with a| |exact Hy].
    intros z Hz.
    apply (matches_seq_nil (λ y, all_chars not_colon y = true));
      [intros a t H _; now apply no_colon_tail with a| |exact Hz].
    intros w Hw. now apply no_colon_chr_nil.
Qed.

(** With a range that has no colon, such as a single cell, and a sheet name
    that has none either, both properties raise [AttributeError], and
    [upsert_table] raises it before it reads the sheet or an instance: the
    session is as before, whatever the queryset. *)
Theorem range_without_colon (c : config) (push_fields : list string)
    (queryset : list dict) (st : session) :
  all_chars not_colon (sheet_name c) = true →
  all_chars not_colon (data_range c) = true →
  sheet_range_rows c = Err AttributeError
  ∧ sheet_range_cols c = Err AttributeError
  ∧ upsert_table c push_fields queryset st = (Err AttributeError, st).
Proof.
  intros Hn Hr.
  assert (Hx : all_chars not_colon (sheet_range c) = true).
  { unfold sheet_range, get_sheet_range. rewrite !all_chars_app, Hn, Hr.
    reflexivity. }
  destruct (no_colon_search_none _ Hx) as [Hrow Hcol].
  assert (Hcols : sheet_range_cols c = Err AttributeError).
  { unfold sheet_range_cols, parse_col_bounds. now rewrite Hcol. }
  repeat split.
  - unfold sheet_range_rows, parse_row_bounds. now rewrite Hrow.
  - exact Hcols.
  - unfold upsert_table. apply bind_err. unfold lift. now rewrite Hcols.
Qed.

Lemma range_without_colon_witness :
  let c := Config "Sheet1" "A1" "id" "Django GUID" 500 30000 "Z" in
  sheet_range_rows c = Err AttributeError
  ∧ sheet_range_cols c = Err AttributeError
  ∧ upsert_table c ["id"; "Name"] five_instances (fresh alice_sheet)
    = (Err AttributeError, fresh alice_sheet).
Proof.
  intros c.
  exact (range_without_colon c ["id"; "Name"] five_instances (fresh alice_sheet)
           eq_refl eq_refl).
Defined.

(** ** A sheet name that reads as a range *)

Lemma stops_upper_digits_then (r rest : string) :
  all_chars is_digit r = true → stops is_upper rest →
  stops is_upper (r +:+ rest).
Proof.
  destruct r as [|a r]; [now rewrite append_nil|].
  rewrite append_cons. simpl. intros H _.
  apply andb_prop in H as [H _]. now apply digit_not_upper.
Qed.

Lemma row_pattern_head_rest (cols1 row1 cols2 row2 rest : string) :
  all_chars is_upper cols1 = true → nonempty cols1 = true →
  all_chars is_digit row1 = true → nonempty row1 = true →
  all_chars is_upper cols2 = true → nonempty cols2 = true →
  all_chars is_digit row2 = true →
  stops is_digit rest → stops is_upper rest →
  Re.search row_pattern (cols1 +:+ row1 +:+ ":" +:+ cols2 +:+ row2 +:+ rest)
  = Some [row1; row2].
Proof.
  intros Hc1 Nc1 Hr1 Nr1 Hc2 Nc2 Hr2 Sd Su.
  destruct (matches_plus_run is_upper cols1
              (row1 +:+ ":" +:+ cols2 +:+ row2 +:+ rest))
    as [t1 E1]; [assumption..|now apply stops_digits_upper|].
  destruct (matches_plus_run is_digit row1 (":" +:+ cols2 +:+ row2 +:+ rest))
    as [t2 E2]; [assumption..|reflexivity|].
  apply (matches_group_head (Re.Plus is_digit)) in E2 as [t2' E2].
  pose proof (matches_chr_head ":" (cols2 +:+ row2 +:+ rest)) as E3.
  destruct (matches_plus_run is_upper cols2 (row2 +:+ rest))
    as [t4 E4]; [assumption..|now apply stops_upper_digits_then|].
  destruct (matches_star_run is_digit row2 rest) as [t5 E5]; [assumption..|].
  apply (matches_group_head (Re.Star is_digit)) in E5 as [t5' E5].
  destruct (matches_seq_head _ _ _ _ _ _ _ E4 E5) as [t6 E6].
  destruct (matches_seq_head _ _ _ _ _ _ _ E3 E6) as [t7 E7].
  destruct (matches_seq_head _ _ _ _ _ _ _ E2 E7) as [t8 E8].
  destruct (matches_seq_head _ _ _ _ _ _ _ E1 E8) as [t9 E9].
  fold row_pattern in E9. now rewrite (search_head _ _ _ _ E9).
Qed.

Lemma col_pattern_head_rest (cols1 row1 cols2 row2 rest : string) :
  all_chars is_upper cols1 = true → nonempty cols1 = true →
  all_chars is_digit row1 = true →
  all_chars is_upper cols2 = true → nonempty cols2 = true →
  all_chars is_digit row2 = true →
  stops is_digit rest → stops is_upper rest →
  Re.search col_pattern (cols1 +:+ row1 +:+ ":" +:+ cols2 +:+ row2 +:+ rest)
  = Some [cols1; cols2].
Proof.
  intros Hc1 Nc1 Hr1 Hc2 Nc2 Hr2 Sd Su.
  destruct (matches_plus_run is_upper cols1
              (row1 +:+ ":" +:+ cols2 +:+ row2 +:+ rest))
    as [t1 E1]; [assumption..|now apply stops_upper_after_digits|].
  apply (matches_group_head (Re.Plus is_upper)) in E1 as [t1' E1].
  destruct (matches_star_run is_digit row1 (":" +:+ cols2 +:+ row2 +:+ rest))
    as [t2 E2]; [assumption|reflexivity|].
  pose proof (matches_chr_head ":" (cols2 +:+ row2 +:+ rest)) as E3.
  destruct (matches_plus_run is_upper cols2 (row2 +:+ rest))
    as [t4 E4]; [assumption..|now apply stops_upper_digits_then|].
  apply (matches_group_head (Re.Plus is_upper)) in E4 as [t4' E4].
  destruct (matches_star_run is_digit row2 rest) as [t5 E5]; [assumption..|].
  destruct (matches_seq_head _ _ _ _ _ _ _ E4 E5) as [t6 E6].
  destruct (matches_seq_head _ _ _ _ _ _ _ E3 E6) as [t7 E7].
  destruct (matches_seq_head _ _ _ _ _ _ _ E2 E7) as [t8 E8].
  destruct (matches_seq_head _ _ _ _ _ _ _ E1 E8) as [t9 E9].
  fold col_pattern in E9. now rewrite (search_head _ _ _ _ E9).
Qed.

(** The properties search the sheet name too.  When the sheet name itself
    has the form [COLS ROW : COLS ROW], the bounds they return are those
    written in the sheet name, whatever the configured range is. *)
Theorem sheet_name_shadows_range (cols1 row1 cols2 row2 range mc : string)
    (m : Z) :
  all_chars is_upper cols1 = true → nonempty cols1 = true →
  all_chars is_digit row1 = true → nonempty row1 = true →
  all_chars is_upper cols2 = true → nonempty cols2 = true →
  all_chars is_digit row2 = true → nonempty row2 = true →
  let name := cols1 +:+ row1 +:+ ":" +:+ cols2 +:+ row2 in
  parse_row_bounds (get_sheet_range name range) m
  = Ok (decimal row1, decimal row2)
  ∧ parse_col_bounds (get_sheet_range name range) mc = Ok (cols1, cols2).
Proof.
  intros Hc1 Nc1 Hr1 Nr1 Hc2 Nc2 Hr2 Nr2 name. subst name.
  unfold get_sheet_range.
  assert (E : (cols1 +:+ row1 +:+ ":" +:+ cols2 +:+ row2) +:+ "!" +:+ range
              = cols1 +:+ row1 +:+ ":" +:+ cols2 +:+ row2 +:+ "!" +:+ range).
  { now rewrite !append_assoc. }
  rewrite E. split.
  - rewrite (parse_row_bounds_groups _ row1 row2).
    + rewrite (int_digits row1 Hr1 Nr1). simpl.
      destruct (decide (VStr row2 = VStr "")) as [H|_].
      * injection H as ->. discriminate.
      * now rewrite (int_digits row2 Hr2 Nr2).
    + now apply row_pattern_head_rest.
  - unfold parse_col_bounds.
    now rewrite col_pattern_head_rest.
Qed.

Lemma sheet_name_shadows_range_witness :
  let c := Config "Q1:Q4" "A10:C20" "id" "Django GUID" 500 30000 "Z" in
  sheet_range_rows c = Ok (1, 4) ∧ sheet_range_cols c = Ok ("Q", "Q").
Proof.
  intros c.
  exact (sheet_name_shadows_range "Q" "1" "Q" "4" "A10:C20" "Z" 30000
           eq_refl eq_refl eq_refl eq_refl eq_refl eq_refl eq_refl eq_refl).
Defined.

(** ** The ranges [upsert_table] writes *)

Lemma decimal_from_app (a b : string) :
  ∀ acc, decimal_from acc (a +:+ b) = decimal_from (decimal_from acc a) b.
Proof.
  induction a as [|x a IH]; intros acc; [reflexivity|].
  rewrite append_cons. simpl. apply IH.
Qed.

Lemma nonempty_app_cons (a : string) (x : ascii) (b : string) :
  nonempty (a +:+ String x b) = true.
Proof. destruct a; reflexivity. Qed.

Lemma pretty_N_char_digit (k : N) :
  is_digit (pretty_N_char k) = true
  ∧ ((k < 10)%N → Z.of_N (N_of_ascii (pretty_N_char k) - 48) = Z.of_N k).
Proof.
  unfold pretty_N_char.
  destruct k as [|[[[[|[]|]|[[]|[]|]|]|[[|[]|]|[[]|[]|]|]|]|[[[|[]|]|[[]|[]|]|]
                 |[[|[]|]|[[]|[]|]|]|]|]];
    (split; [reflexivity|]); intros H; try reflexivity; lia.
Qed.

Lemma pretty_N_go_app (x : N) :
  ∀ s, pretty_N_go x s = pretty_N_go x "" +:+ s.
Proof.
  induction (N.lt_wf_0 x) as [x _ IH]; intros s.
  destruct (N.eq_dec x 0) as [->|Hx]; [reflexivity|].
  assert (H0 : (0 < x)%N) by lia.
  rewrite (pretty_N_go_step x s H0), (pretty_N_go_step x "" H0).
  assert (Hlt : (x `div` 10 < x)%N) by (apply N.div_lt; lia).
  rewrite (IH _ Hlt (String (pretty_N_char (x `mod` 10)) s)).
  rewrite (IH _ Hlt (String (pretty_N_char (x `mod` 10)) "")).
  now rewrite append_assoc.
Qed.

Lemma pretty_N_go_decimal (x : N) :
  all_chars is_digit (pretty_N_go x "") = true
  ∧ decimal (pretty_N_go x "") = Z.of_N x
  ∧ ((0 < x)%N → nonempty (pretty_N_go x "") = true).
Proof.
  induction (N.lt_wf_0 x) as [x _ IH].
  destruct (N.eq_dec x 0) as [->|Hx].
  { repeat split. intros H. lia. }
  assert (H0 : (0 < x)%N) by lia.
  rewrite (pretty_N_go_step x "" H0), pretty_N_go_app.
  destruct (IH (x `div` 10)%N) as [Hd [Hv _]]; [apply N.div_lt; lia|].
  destruct (pretty_N_char_digit (x `mod` 10)%N) as [Hc Hk].
  repeat split.
  - rewrite all_chars_app, Hd. simpl. now rewrite Hc.
  - unfold decimal in *. rewrite decimal_from_app, Hv. simpl.
    rewrite Hk by (apply N.mod_lt; lia).
    rewrite (N.div_mod x 10) at 3 by lia. lia.
  - intros _. apply nonempty_app_cons.
Qed.

(** The decimal text of a number that is not negative: digits, at least
    one, that denote the number. *)
Lemma pretty_decimal (z : Z) :
  0 ≤ z →
  all_chars is_digit (pretty z) = true ∧ nonempty (pretty z) = true
  ∧ decimal (pretty z) = z.
Proof.
  intros Hz. destruct z as [|p|p]; [repeat split| |lia].
  change (pretty (Z.pos p)) with (pretty_N_go (N.pos p) "").
  destruct (pretty_N_go_decimal (N.pos p)) as [H1 [H2 H3]].
  repeat split; [exact H1|now apply H3|exact H2].
Qed.

(** A range string as [upsert_table] builds it, under a sheet name without
    colon, for columns in capital letters and rows that are not negative:
    the two properties read the rows and the columns it was built from. *)
Theorem range_string_round_trip (c : config) (cols_start cols_end mc : string)
    (row1 row2 m : Z) :
  all_chars not_colon (sheet_name c) = true →
  all_chars is_upper cols_start = true → nonempty cols_start = true →
  all_chars is_upper cols_end = true → nonempty cols_end = true →
  0 ≤ row1 → 0 ≤ row2 →
  parse_row_bounds (range_string c cols_start row1 cols_end row2) m
  = Ok (row1, row2)
  ∧ parse_col_bounds (range_string c cols_start row1 cols_end row2) mc
    = Ok (cols_start, cols_end).
Proof.
  intros Hn Hc1 Nc1 Hc2 Nc2 H1 H2. unfold range_string.
  destruct (pretty_decimal row1 H1) as [Hd1 [Ne1 Hv1]].
  destruct (pretty_decimal row2 H2) as [Hd2 [Ne2 Hv2]].
  split.
  - rewrite (parse_row_bounds_groups _ (pretty row1) (pretty row2)).
    + rewrite (int_digits _ Hd1 Ne1), Hv1. simpl.
      destruct (decide (VStr (pretty row2) = VStr "")) as [E|_].
      * injection E as E. rewrite E in Ne2. discriminate.
      * now rewrite (int_digits _ Hd2 Ne2), Hv2.
    + rewrite (search_sheet_range _ _ _ (row_pattern_guarded _) Hn).
      now apply row_pattern_head.
  - unfold parse_col_bounds.
    rewrite (search_sheet_range _ _ _ (col_pattern_guarded _) Hn).
    now rewrite col_pattern_head.
Qed.

Lemma range_string_round_trip_witness :
  parse_row_bounds (range_string default_config "A" 503 "Z" 1003) 30000
  = Ok (503, 1003)
  ∧ parse_col_bounds (range_string default_config "A" 503 "Z" 1003) "Z"
    = Ok ("A", "Z").
Proof.
  apply (range_string_round_trip default_config "A" "Z" "Z" 503 1003 30000);
    try reflexivity; lia.
Defined.

(** * Further properties of [upsert_table] *)

(** ** A queryset no longer than the batch size *)

Lemma filter_none {A} (P : A → Prop) `{∀ x, Decision (P x)} (l : list A) :
  Forall (λ x, ¬ P x) l → filter P l = [].
Proof.
  induction 1 as [|x l Hx _ IH]; [reflexivity|].
  now rewrite filter_cons_False.
Qed.

Lemma due_indices_none (c : config) (n : nat) :
  Z.of_nat n ≤ batch_size c → due_indices c 0 n = [].
Proof.
  intros Hn. unfold due_indices. apply filter_none.
  apply Forall_forall. intros k Hk.
  apply list_elem_of_In, in_map_iff in Hk as [j [<- Hj]]. apply in_seq in Hj.
  intros [H0 [_ Hmod]]. rewrite Z.mod_small in Hmod by lia. lia.
Qed.

(** A run over a queryset that is not empty and no longer than the batch
    size sends one write-out: the whole cache, to the range that starts at
    row 2 and ends at the last row of the configured range.  This is the
    case of the default batch size for a table of up to 500 instances. *)
Theorem upsert_table_single_writeout (c : config) (push_fields : list string)
    (queryset : list dict) (st st' : session) :
  queryset ≠ [] → Z.of_nat (length queryset) ≤ batch_size c →
  upsert_table c push_fields queryset st = (Ok tt, st') →
  ∃ cols rows d,
    sheet_range_cols c = Ok cols
    ∧ sheet_range_rows c = Ok rows
    ∧ _sheet_data st' = Some d
    ∧ writeouts st'
      = writeouts st ++ [(range_string c cols.1 2 cols.2 rows.2, d)].
Proof.
  intros Hne Hn H. unfold upsert_table in H.
  apply bind_ok_inv in H as [cols [s1 [Hc H]]]. injection Hc as Hc <-.
  apply bind_ok_inv in H as [rows [s2 [Hr H]]]. injection Hr as Hr <-.
  apply bind_ok_inv in H as [lw [st1 [Hloop H]]].
  apply bind_ok_inv in H as [[] [st2 [Hfinal H]]]. injection H as H. subst st'.
  pose proof (upsert_loop_last _ _ _ _ _ _ _ _ _ _ _ Hloop) as [Hlw _].
  apply upsert_loop_writeouts in Hloop as [flushes [Hw Hf]].
  rewrite (due_indices_none c _ Hn) in Hf. apply nil_length_inv in Hf as ->.
  rewrite app_nil_r in Hw.
  assert (Hlen : 0 < Z.of_nat (length queryset)).
  { destruct queryset; [congruence|simpl; lia]. }
  assert (lw = 0) as ->.
  { destruct Hlw as [->|[Hr' [H0 [_ Hmod]]]]; [reflexivity|].
    rewrite Z.mod_small in Hmod by lia. lia. }
  destruct (0 <? Z.of_nat (length queryset)) eqn:Hlt; [|lia].
  unfold final_writeout in Hfinal.
  apply bind_ok_inv in Hfinal as [d [st3 [Hd Hfw]]]. injection Hfw as Hfw.
  subst st2.
  pose proof (sheet_data_writeouts c (writeouts st1) st1 eq_refl) as Hs.
  rewrite Hd in Hs. simpl in Hs. apply sheet_data_ok in Hd.
  exists cols, rows, d. repeat split; try assumption.
  simpl. rewrite Hs, Hw. now rewrite slice_from_drop by lia.
Qed.

Lemma upsert_table_single_writeout_witness :
  let st' := (upsert_table default_config ["id"; "Name"] five_instances
                (fresh alice_sheet)).2 in
  ∃ cols rows d,
    sheet_range_cols default_config = Ok cols
    ∧ sheet_range_rows default_config = Ok rows
    ∧ _sheet_data st' = Some d
    ∧ writeouts st'
      = [] ++ [(range_string default_config cols.1 2 cols.2 rows.2, d)].
Proof.
  intros st'.
  apply (upsert_table_single_writeout default_config ["id"; "Name"]
           five_instances (fresh alice_sheet) st').
  - discriminate.
  - simpl. lia.
  - vm_compute. reflexivity.
Defined.

(** ** A batch size of zero *)

(** With a batch size of 0 and two instances or more, [upsert_table] never
    completes and sends no write-out.  Once the first instance has been
    upserted it raises [ZeroDivisionError] at the second, and the session
    is the one the first upsert left: its row is cached, and not written. *)
Theorem upsert_table_zero_batch_size (c : config) (push_fields : list string)
    (obj1 obj2 : dict) (queryset : list dict) (st : session) :
  batch_size c = 0 →
  let r := upsert_table c push_fields (obj1 :: obj2 :: queryset) st in
  r.1 ≠ Ok tt
  ∧ writeouts r.2 = writeouts st
  ∧ (∀ cols rows data,
       sheet_range_cols c = Ok cols → sheet_range_rows c = Ok rows →
       push_data obj1 push_fields [] = Ok data →
       (upsert_data c data st).1 = Ok tt →
       r = (Err ZeroDivisionError, (upsert_data c data st).2)).
Proof.
  intros Hb r. subst r. unfold upsert_table.
  destruct (sheet_range_cols c) as [cols|e] eqn:Hc.
  2:{ rewrite (bind_err _ _ st e st) by reflexivity.
      split; [discriminate|]. split; [reflexivity|]. intros; discriminate. }
  rewrite (bind_ok _ _ st cols st) by reflexivity.
  destruct (sheet_range_rows c) as [rows|e] eqn:Hr.
  2:{ rewrite (bind_err _ _ st e st) by reflexivity.
      split; [discriminate|]. split; [reflexivity|]. intros; discriminate. }
  rewrite (bind_ok _ _ st rows st) by reflexivity.
  assert (Hloop :
    upsert_loop c push_fields cols.1 cols.2 rows.1 0 0
      (obj1 :: obj2 :: queryset) st
    = match push_data obj1 push_fields [] with
      | Ok data =>
          match upsert_data c data st with
          | (Ok _, st1) => (Err ZeroDivisionError, st1)
          | (Err e, st1) => (Err e, st1)
          end
      | Err e => (Err e, st)
      end).
  { simpl. unfold writeout_if_due at 1. simpl.
    rewrite (bind_ok _ _ st 0 st) by reflexivity.
    destruct (push_data obj1 push_fields []) as [data|e].
    2:{ now rewrite (bind_err _ _ st e st) by reflexivity. }
    rewrite (bind_ok _ _ st data st) by reflexivity.
    unfold bind at 1.
    destruct (upsert_data c data st) as [[[]|e] st1]; [|reflexivity].
    apply bind_err. unfold writeout_if_due. simpl.
    apply bind_err. unfold lift, py_mod. now rewrite Hb. }
  destruct (push_data obj1 push_fields []) as [data|e] eqn:Hp.
  2:{ rewrite (bind_err _ _ _ _ _ Hloop).
      split; [discriminate|]. split; [reflexivity|]. intros; discriminate. }
  pose proof (upsert_data_writeouts c data st) as Hw.
  destruct (upsert_data c data st) as [[[]|e] st1] eqn:Hu;
    rewrite (bind_err _ _ _ _ _ Hloop); simpl in *.
  - split; [discriminate|]. split; [exact Hw|].
    intros cols' rows' data' _ _ [= <-] _. now rewrite Hu.
  - split; [discriminate|]. split; [exact Hw|].
    intros cols' rows' data' _ _ [= <-] H. rewrite Hu in H. discriminate.
Qed.

Lemma upsert_table_zero_batch_size_witness :
  let c := Config "Sheet1" "A1:Z" "id" "Django GUID" 0 30000 "Z" in
  let r := upsert_table c ["id"; "Name"]
             [instance "id-1" "Ann"; instance "id-2" "Bob"]
             (fresh (Ok [name_id_headers])) in
  r.1 = Err ZeroDivisionError
  ∧ _sheet_data r.2 = Some [[VStr "Ann"; VStr "id-1"]]
  ∧ writeouts r.2 = [].
Proof.
  intros c r.
  destruct (upsert_table_zero_batch_size c ["id"; "Name"]
              (instance "id-1" "Ann") (instance "id-2" "Bob") []
              (fresh (Ok [name_id_headers])) eq_refl) as [_ [H2 H3]].
  fold r in H2, H3.
  rewrite (H3 ("A", "Z") (1, 30000) (instance "id-1" "Ann")
             eq_refl eq_refl eq_refl eq_refl).
  repeat split.
Defined.

(** ** An instance without a pushed attribute *)

Lemma push_data_missing (obj : dict) (fields : list string) :
  ∀ acc, (∃ f, f ∈ fields ∧ dict_get f obj = None) →
         push_data obj fields acc = Err AttributeError.
Proof.
  induction fields as [|g fields IH]; intros acc [f [Hf Hnone]].
  - now apply elem_of_nil in Hf.
  - simpl. unfold getattr. destruct (dict_get g obj) as [v|] eqn:Hg; [|reflexivity].
    simpl. apply IH. exists f. split; [|exact Hnone].
    apply elem_of_cons in Hf as [->|Hf]; [congruence|exact Hf].
Qed.

(** When the first instance lacks one of the push fields, [upsert_table]
    raises [AttributeError] before it reads the sheet: the session is as
    before. *)
Theorem upsert_table_missing_attribute (c : config) (push_fields : list string)
    (obj : dict) (queryset : list dict) (st : session) (f : string)
    (cols : string * string) (rows : Z * Z) :
  sheet_range_cols c = Ok cols → sheet_range_rows c = Ok rows →
  f ∈ push_fields → dict_get f obj = None →
  upsert_table c push_fields (obj :: queryset) st = (Err AttributeError, st).
Proof.
  intros Hc Hr Hf Hnone. unfold upsert_table. rewrite Hc, Hr.
  rewrite (bind_ok _ _ st cols st) by reflexivity.
  rewrite (bind_ok _ _ st rows st) by reflexivity.
  apply bind_err. simpl. unfold writeout_if_due at 1. simpl.
  rewrite (bind_ok _ _ st 0 st) by reflexivity.
  apply bind_err. unfold lift. rewrite push_data_missing; eauto.
Qed.

Lemma upsert_table_missing_attribute_witness :
  upsert_table default_config ["id"; "Name"; "Age"] five_instances
    (fresh alice_sheet)
  = (Err AttributeError, fresh alice_sheet).
Proof.
  apply (upsert_table_missing_attribute default_config ["id"; "Name"; "Age"]
           (instance "id-1" "Ann") _ (fresh alice_sheet) "Age"
           ("A", "Z") (1, 30000)); try reflexivity.
  apply list_elem_of_In. simpl. auto.
Defined.

(** * A fetch that raises during [upsert_data] *)

Lemma column_index_fetch_error (c : config) (f : string) (st : session)
    (e : exn) :
  _sheet_data st = None → _sheet_headers st = None → api_values st = Err e →
  column_index c f st = (Err e, count_fetch st).
Proof.
  intros Hd Hh Ha. unfold column_index, sheet_headers, bind.
  rewrite Hh. simpl. unfold sheet_data. rewrite Hd. simpl. now rewrite Ha.
Qed.

Lemma field_indexes_fetch_value_error (c : config) (fields : list string) :
  ∀ acc st,
    _sheet_data st = None → _sheet_headers st = None →
    api_values st = Err ValueError →
    let r := field_indexes c fields acc st in
    r.1 = Ok acc
    ∧ _sheet_data r.2 = None ∧ _sheet_headers r.2 = None
    ∧ api_values r.2 = Err ValueError
    ∧ fetches r.2 = (fetches st + length fields)%nat
    ∧ log r.2 = log st ++ map skip_message fields.
Proof.
  induction fields as [|f fields IH]; intros acc st Hd Hh Ha; cbv zeta.
  - simpl. repeat split; try assumption; [lia|now rewrite app_nil_r].
  - set (st1 := add_log (skip_message f) (count_fetch st)).
    assert (E : field_indexes c (f :: fields) acc st
                = field_indexes c fields acc st1).
    { simpl. unfold bind at 1. unfold try_except, bind at 1.
      now rewrite (column_index_fetch_error c _ st ValueError Hd Hh Ha). }
    rewrite E.
    destruct (IH acc st1 Hd Hh Ha) as [H1 [H2 [H3 [H4 [H5 H6]]]]].
    repeat split; try assumption.
    + rewrite H5. simpl. lia.
    + rewrite H6. simpl. now rewrite <- app_assoc.
Qed.

(** [upsert_data] catches [ValueError] around each lookup of a column, and a
    lookup fetches the sheet when nothing is cached.  So when the fetch
    raises [ValueError], as the credentials do when none is stored, every
    field is logged as having no header, one fetch is made for each field,
    and the call then raises [KeyError] when the data lack the identifier,
    or [ValueError] from [existing_row] after one more fetch.  Any other
    exception of the fetch is raised at the first field, with nothing
    logged. *)
Theorem upsert_data_fetch_raises (c : config) (data : dict) (st : session)
    (e : exn) :
  _sheet_data st = None → _sheet_headers st = None → api_values st = Err e →
  let r := upsert_data c data st in
  (e = ValueError →
     log r.2 = log st ++ map skip_message (keys data)
     ∧ _sheet_data r.2 = None
     ∧ (dict_get (model_id_field c) data = None →
          r.1 = Err KeyError
          ∧ fetches r.2 = (fetches st + length (keys data))%nat)
     ∧ (is_Some (dict_get (model_id_field c) data) →
          r.1 = Err ValueError
          ∧ fetches r.2 = (fetches st + length (keys data) + 1)%nat))
  ∧ (e ≠ ValueError → keys data ≠ [] → r = (Err e, count_fetch st)).
Proof.
  intros Hd Hh Ha r. subst r. split.
  - intros ->. unfold upsert_data.
    destruct (field_indexes_fetch_value_error c (keys data) [] st Hd Hh Ha)
      as [H1 [H2 [H3 [H4 [H5 H6]]]]].
    destruct (field_indexes c (keys data) [] st) as [r1 st1] eqn:E.
    simpl in *. subst r1.
    rewrite (bind_ok _ _ _ _ _ E). simpl.
    rewrite (bind_ok _ _ st1 [] st1) by reflexivity.
    assert (Ec : column_index c (sheet_id_field c) st1
                 = (Err ValueError, count_fetch st1))
      by now apply column_index_fetch_error.
    assert (Ee : existing_row c data st1
                 = match dict_get (model_id_field c) data with
                   | Some _ => (Err ValueError, count_fetch st1)
                   | None => (Err KeyError, st1)
                   end).
    { unfold existing_row, bind, lift, dict_item.
      destruct (dict_get (model_id_field c) data); [|reflexivity].
      now rewrite Ec. }
    destruct (dict_get (model_id_field c) data) as [v|] eqn:Hv;
      rewrite (bind_err _ _ _ _ _ Ee); simpl.
    + split; [exact H6|]. split; [exact H2|]. split; [intros; discriminate|].
      intros _. split; [reflexivity|]. rewrite H5. lia.
    + split; [exact H6|]. split; [exact H2|].
      split; [intros _; split; [reflexivity|exact H5]|].
      intros [? ?]. discriminate.
  - intros Hne Hk. unfold upsert_data.
    destruct data as [|[f v] data]; [now destruct Hk|]. simpl.
    apply bind_err. apply bind_err. unfold try_except, bind.
    rewrite (column_index_fetch_error c _ st e Hd Hh Ha).
    now rewrite decide_False by exact Hne.
Qed.

Lemma upsert_data_fetch_raises_witness :
  let r := upsert_data default_config (instance "id-1" "Ann")
             (fresh (Err ValueError)) in
  r.1 = Err ValueError
  ∧ log r.2 = ["skipping field id because it has no header";
               "skipping field Name because it has no header"]
  ∧ fetches r.2 = 3%nat.
Proof.
  intros r.
  destruct (upsert_data_fetch_raises default_config (instance "id-1" "Ann")
              (fresh (Err ValueError)) ValueError eq_refl eq_refl eq_refl)
    as [H _].
  destruct (H eq_refl) as [Hl [_ [_ Hv]]].
  destruct Hv as [H1 H2]; [now exists (VStr "id-1")|].
  split; [exact H1|]. split; [exact Hl|exact H2].
Defined.

(** * The write-outs do not change what is upserted *)

Lemma agree_refl (st : session) : agree st st.
Proof. now repeat split. Qed.

Lemma agree_trans (st1 st2 st3 : session) :
  agree st1 st2 → agree st2 st3 → agree st1 st3.
Proof.
  intros [H1 [H2 [H3 [H4 H5]]]] [K1 [K2 [K3 [K4 K5]]]].
  repeat split; congruence.
Qed.

Lemma agree_add_writeout (w : string * list row) (st : session) :
  agree (add_writeout w st) st.
Proof. now repeat split. Qed.

Lemma respects_ret {A} (a : A) : respects (ret a).
Proof. intros st1 st2 H. now split. Qed.

Lemma respects_raise {A} (e : exn) : respects (@raise A e).
Proof. intros st1 st2 H. now split. Qed.

Lemma respects_lift {A} (r : result A) : respects (lift r).
Proof. intros st1 st2 H. now split. Qed.

Lemma respects_bind {A B} (m : M A) (k : A → M B) :
  respects m → (∀ a, respects (k a)) → respects (bind m k).
Proof.
  intros Hm Hk st1 st2 H. unfold bind. destruct (Hm st1 st2 H) as [E Ha].
  destruct (m st1) as [[a1|e1] s1], (m st2) as [[a2|e2] s2];
    simpl in *; try discriminate.
  - injection E as <-. now apply Hk.
  - injection E as <-. now split.
Qed.

Lemma respects_try_except {A} (m h : M A) (e : exn) :
  respects m → respects h → respects (try_except m e h).
Proof.
  intros Hm Hh st1 st2 H. unfold try_except. destruct (Hm st1 st2 H) as [E Ha].
  destruct (m st1) as [[a1|e1] s1], (m st2) as [[a2|e2] s2];
    simpl in *; try discriminate.
  - injection E as <-. now split.
  - injection E as <-. destruct (decide (e1 = e)); [now apply Hh|now split].
Qed.

Lemma respects_set_sheet_data (d : option (list row)) :
  respects (modify (set_sheet_data d)).
Proof.
  intros st1 st2 [H1 [H2 [H3 [H4 H5]]]]. split; [reflexivity|].
  now repeat split.
Qed.

Lemma respects_add_log (m : string) : respects (modify (add_log m)).
Proof.
  intros st1 st2 [H1 [H2 [H3 [H4 H5]]]]. split; [reflexivity|].
  repeat split; simpl; congruence.
Qed.

Lemma respects_sheet_data (c : config) : respects (sheet_data c).
Proof.
  intros st1 st2 [H1 [H2 [H3 [H4 H5]]]]. unfold sheet_data.
  rewrite <- H1. destruct (_sheet_data st1) as [d|] eqn:Hd.
  { split; [reflexivity|]. simpl. repeat split; congruence. }
  simpl. rewrite <- H3. destruct (api_values st1) as [[|h rest]|e] eqn:Ha;
    simpl; (split; [reflexivity|]); repeat split; simpl; congruence.
Qed.

Lemma respects_sheet_headers (c : config) : respects (sheet_headers c).
Proof.
  unfold sheet_headers. apply respects_bind.
  - intros st1 st2 H. pose proof H as [_ [H2 _]]. rewrite <- H2.
    destruct (falsy (_sheet_headers st1)); [now apply respects_sheet_data|].
    now split.
  - intros _ st1 st2 H. pose proof H as [_ [H2 _]]. simpl.
    split; [now rewrite H2|exact H].
Qed.

Lemma respects_column_index (c : config) (f : string) :
  respects (column_index c f).
Proof.
  unfold column_index.
  apply respects_bind; [apply respects_sheet_headers|]. intros _.
  apply respects_bind; [apply respects_sheet_headers|]. intros [hs|].
  - apply respects_lift.
  - apply respects_raise.
Qed.

Lemma respects_field_indexes (c : config) (fields : list string) :
  ∀ acc, respects (field_indexes c fields acc).
Proof.
  induction fields as [|f fields IH]; intros acc; simpl.
  - apply respects_ret.
  - apply respects_bind; [|exact IH]. apply respects_try_except.
    + apply respects_bind; [apply respects_column_index|].
      intros ix. apply respects_ret.
    + apply respects_bind; [apply respects_add_log|].
      intros _. apply respects_ret.
Qed.

Lemma respects_upsert_data (c : config) (data : dict) :
  respects (upsert_data c data).
Proof.
  unfold upsert_data.
  apply respects_bind; [apply respects_field_indexes|]. intros fis.
  apply respects_bind; [apply respects_lift|]. intros r.
  apply respects_bind.
  { unfold existing_row.
    apply respects_bind; [apply respects_lift|]. intros v.
    apply respects_bind; [apply respects_column_index|]. intros ix.
    apply respects_bind; [apply respects_sheet_data|]. intros d.
    apply respects_lift. }
  intros [i|].
  - unfold setitem. apply respects_bind; [apply respects_sheet_data|].
    intros d. destruct (decide (i < length d)%nat);
      [apply respects_set_sheet_data|apply respects_raise].
  - unfold append. apply respects_bind; [apply respects_sheet_data|].
    intros d. apply respects_set_sheet_data.
Qed.

(** After [upsert_data] has returned, the rows are cached. *)
Lemma upsert_data_ok_cached (c : config) (data : dict) (st st' : session) :
  upsert_data c data st = (Ok tt, st') → ∃ d, _sheet_data st' = Some d.
Proof.
  unfold upsert_data. intros H.
  apply bind_ok_inv in H as [fis [s1 [_ H]]].
  apply bind_ok_inv in H as [r [s2 [_ H]]].
  apply bind_ok_inv in H as [[i|] [s3 [_ H]]].
  - unfold setitem in H. apply bind_ok_inv in H as [d [s4 [_ H]]].
    destruct (decide (i < length d)%nat); [|discriminate].
    injection H as <-. simpl. eauto.
  - unfold append in H. apply bind_ok_inv in H as [d [s4 [_ H]]].
    injection H as <-. simpl. eauto.
Qed.

Lemma writeout_if_due_agree (c : config) cols_start cols_end rows_start
    (i : nat) (lw lw' : Z) (st st' : session) :
  (i = 0%nat ∨ ∃ d, _sheet_data st = Some d) →
  writeout_if_due c cols_start cols_end rows_start i lw st = (Ok lw', st') →
  agree st' st.
Proof.
  intros Hi. unfold writeout_if_due.
  destruct (0 <? Z.of_nat i) eqn:E.
  2:{ intros [= _ <-]. apply agree_refl. }
  destruct Hi as [->|[d Hd]]; [discriminate|].
  intros H. apply bind_ok_inv in H as [m [s1 [Hm H]]].
  unfold lift in Hm. injection Hm as _ <-.
  destruct (m =? 0).
  - apply bind_ok_inv in H as [[] [s2 [Hp H]]]. injection H as _ <-.
    unfold periodic_writeout in Hp.
    rewrite (bind_ok _ _ _ _ _ (sheet_data_cached c st d Hd)) in Hp.
    injection Hp as <-. apply agree_add_writeout.
  - injection H as _ <-. apply agree_refl.
Qed.

Lemma upsert_loop_agree (c : config) push_fields cols_start cols_end
    rows_start (queryset : list dict) :
  ∀ (i : nat) (lw lw' : Z) st1 st1' st2,
    agree st1 st2 →
    (i = 0%nat ∨ ∃ d, _sheet_data st1 = Some d) →
    upsert_loop c push_fields cols_start cols_end rows_start i lw queryset st1
    = (Ok lw', st1') →
    ∃ st2', upsert_each c push_fields queryset st2 = (Ok tt, st2')
            ∧ agree st1' st2'
            ∧ (queryset ≠ [] → ∃ d, _sheet_data st1' = Some d).
Proof.
  induction queryset as [|obj queryset IH]; intros i lw lw' st1 st1' st2 Ha Hi H.
  - injection H as _ <-. exists st2. split; [reflexivity|].
    split; [exact Ha|]. intros Hne. now destruct Hne.
  - simpl in H. apply bind_ok_inv in H as [lw1 [s1 [Hw H]]].
    apply bind_ok_inv in H as [data [s2 [Hp H]]].
    unfold lift in Hp. injection Hp as Hp <-.
    apply bind_ok_inv in H as [[] [s3 [Hu H]]].
    apply (writeout_if_due_agree _ _ _ _ _ _ _ _ _ Hi) in Hw.
    assert (Ha1 : agree s1 st2) by now apply agree_trans with st1.
    destruct (respects_upsert_data c data s1 st2 Ha1) as [E Ha2].
    rewrite Hu in E, Ha2. simpl in E, Ha2.
    destruct (upsert_data_ok_cached c data s1 s3 Hu) as [d3 Hd3].
    destruct (upsert_data c data st2) as [r2 s2'] eqn:Hu2. simpl in E, Ha2.
    subst r2.
    destruct (IH (S i) lw1 lw' s3 st1' s2' Ha2 (or_intror (ex_intro _ d3 Hd3)) H)
      as [st2' [He [Hag Hc]]].
    exists st2'. split; [|split; [exact Hag|]].
    + simpl. rewrite Hp. rewrite (bind_ok _ _ st2 data st2) by reflexivity.
      now rewrite (bind_ok _ _ _ _ _ Hu2).
    + intros _. destruct queryset as [|obj' queryset]; [|now apply Hc].
      injection H as _ <-. eauto.
Qed.

(** A completed run of [upsert_table] leaves the cache, the header row and
    the fetch counter as upserting the instances one after the other with
    [upsert_data] does, and it logs the same records followed by the final
    one: the write-outs read the cache and do not change it. *)
Theorem upsert_table_upserts_each (c : config) (push_fields : list string)
    (queryset : list dict) (st st' : session) :
  upsert_table c push_fields queryset st = (Ok tt, st') →
  ∃ st2, upsert_each c push_fields queryset st = (Ok tt, st2)
         ∧ _sheet_data st' = _sheet_data st2
         ∧ _sheet_headers st' = _sheet_headers st2
         ∧ fetches st' = fetches st2
         ∧ log st' = log st2 ++ [finished_message].
Proof.
  intros H. unfold upsert_table in H.
  apply bind_ok_inv in H as [cols [s1 [Hc H]]]. injection Hc as Hc <-.
  apply bind_ok_inv in H as [rows [s2 [Hr H]]]. injection Hr as Hr <-.
  apply bind_ok_inv in H as [lw [st1 [Hloop H]]].
  apply bind_ok_inv in H as [[] [st3 [Hfinal H]]]. injection H as H. subst st'.
  destruct (upsert_loop_agree _ _ _ _ _ _ _ _ _ _ _ _ (agree_refl st)
              (or_introl eq_refl) Hloop) as [st2 [He [Hag Hcached]]].
  exists st2. split; [exact He|].
  assert (Hag3 : agree st3 st2).
  { destruct queryset as [|obj queryset].
    - simpl in Hloop. injection Hloop as <- <-. simpl in Hfinal.
      injection Hfinal as <-. exact Hag.
    - destruct Hcached as [d Hd]; [discriminate|].
      destruct (lw <? Z.of_nat (length (obj :: queryset))).
      + unfold final_writeout in Hfinal.
        rewrite (bind_ok _ _ _ _ _ (sheet_data_cached c st1 d Hd)) in Hfinal.
        injection Hfinal as <-.
        apply agree_trans with st1; [apply agree_add_writeout|exact Hag].
      + injection Hfinal as <-. exact Hag. }
  destruct Hag3 as [H1 [H2 [H3 [H4 H5]]]].
  repeat split; simpl; congruence.
Qed.

Lemma upsert_table_upserts_each_witness :
  let st' := (upsert_table batch_of_two ["id"; "Name"] five_instances
                (fresh (Ok [name_id_headers]))).2 in
  ∃ st2, upsert_each batch_of_two ["id"; "Name"] five_instances
           (fresh (Ok [name_id_headers])) = (Ok tt, st2)
         ∧ _sheet_data st' = _sheet_data st2
         ∧ _sheet_headers st' = _sheet_headers st2
         ∧ fetches st' = fetches st2
         ∧ log st' = log st2 ++ [finished_message].
Proof.
  intros st'.
  apply (upsert_table_upserts_each batch_of_two ["id"; "Name"] five_instances
           (fresh (Ok [name_id_headers])) st').
  vm_compute. reflexivity.
Defined.

(** ** The rows a write-out carries *)

Lemma upsert_each_app (c : config) push_fields (done rest : list dict) :
  ∀ st s, upsert_each c push_fields done st = (Ok tt, s) →
          upsert_each c push_fields (done ++ rest) st
          = upsert_each c push_fields rest s.
Proof.
  induction done as [|obj done IH]; intros st s H.
  - injection H as <-. reflexivity.
  - simpl in H. apply bind_ok_inv in H as [data [s1 [Hp H]]].
    apply bind_ok_inv in H as [[] [s2 [Hu H]]].
    simpl. rewrite (bind_ok _ _ _ _ _ Hp), (bind_ok _ _ _ _ _ Hu).
    now apply IH.
Qed.

(** The head of the loop body on a session that holds the rows, or at index
    0: it sends nothing, or it sends the slice of the rows it holds. *)
Lemma writeout_if_due_sent (c : config) cols_start cols_end rows_start
    (i : nat) (lw lw' : Z) (st st' : session) :
  (i = 0%nat ∨ ∃ d, _sheet_data st = Some d) →
  writeout_if_due c cols_start cols_end rows_start i lw st = (Ok lw', st') →
  (¬ due c (Z.of_nat i) ∧ st' = st)
  ∨ (due c (Z.of_nat i)
     ∧ ∃ d, _sheet_data st = Some d
            ∧ st' = add_writeout
                      (range_string c cols_start (rows_start + 1 + Z.of_nat i)
                         cols_end
                         (rows_start + 1 + Z.of_nat i + batch_size c),
                       slice d (rows_start - 1 + Z.of_nat i)
                         (rows_start - 1 + Z.of_nat i + batch_size c)) st).
Proof.
  intros Hi. unfold writeout_if_due, due.
  destruct (0 <? Z.of_nat i) eqn:E.
  2:{ intros [= _ <-]. left. split; [lia|reflexivity]. }
  destruct Hi as [->|[d Hd]]; [discriminate|].
  intros H. apply bind_ok_inv in H as [m [s1 [Hm H]]].
  unfold lift, py_mod in Hm.
  destruct (batch_size c =? 0) eqn:Hb; [discriminate|].
  injection Hm as <- <-.
  destruct (Z.of_nat i mod batch_size c =? 0) eqn:Hmod.
  - apply bind_ok_inv in H as [[] [s2 [Hp H]]]. injection H as _ <-.
    unfold periodic_writeout in Hp.
    rewrite (bind_ok _ _ _ _ _ (sheet_data_cached c st d Hd)) in Hp.
    injection Hp as <-.
    right. split; [repeat split; lia|]. exists d. split; [exact Hd|reflexivity].
  - injection H as _ <-. left. split; [lia|reflexivity].
Qed.

(** The loop, entered at the index [length done] after the instances [done]
    have been upserted: for each due index it sends the slice of the rows
    that upserting the instances before that index leaves. *)
Lemma upsert_loop_payloads (c : config) push_fields cols_start cols_end
    rows_start (st0 : session) (rest : list dict) :
  ∀ (done : list dict) (lw lw' : Z) (st1 st1' s_done : session),
    upsert_each c push_fields done st0 = (Ok tt, s_done) →
    agree st1 s_done →
    (done = [] ∨ ∃ d, _sheet_data st1 = Some d) →
    upsert_loop c push_fields cols_start cols_end rows_start (length done) lw
      rest st1 = (Ok lw', st1') →
    ∃ flushes,
      writeouts st1' = writeouts st1 ++ flushes
      ∧ Forall2
          (flush_at c push_fields (done ++ rest) st0 cols_start cols_end
             rows_start)
          (due_indices c (length done) (length rest)) flushes.
Proof.
  induction rest as [|obj rest IH];
    intros done lw lw' st1 st1' s_done Hdone Ha Hi H.
  - injection H as _ <-. exists []. split; [now rewrite app_nil_r|constructor].
  - simpl in H. apply bind_ok_inv in H as [lw1 [s1 [Hw H]]].
    apply bind_ok_inv in H as [data [s2 [Hp H]]].
    unfold lift in Hp. injection Hp as Hp <-.
    apply bind_ok_inv in H as [[] [s3 [Hu H]]].
    assert (Hi' : length done = 0%nat ∨ ∃ d, _sheet_data st1 = Some d).
    { destruct Hi as [->|Hi]; [now left|now right]. }
    pose proof (writeout_if_due_agree _ _ _ _ _ _ _ _ _ Hi' Hw) as Ha1.
    apply (writeout_if_due_sent _ _ _ _ _ _ _ _ _ Hi') in Hw.
    assert (Ha2 : agree s1 s_done) by now apply agree_trans with st1.
    destruct (respects_upsert_data c data s1 s_done Ha2) as [E Ha3].
    rewrite Hu in E, Ha3. simpl in E, Ha3.
    destruct (upsert_data_ok_cached c data s1 s3 Hu) as [d3 Hd3].
    destruct (upsert_data c data s_done) as [r2 s_done'] eqn:Hu2.
    simpl in E, Ha3. subst r2.
    assert (Hdone' : upsert_each c push_fields (done ++ [obj]) st0
                     = (Ok tt, s_done')).
    { rewrite (upsert_each_app c push_fields done [obj] st0 s_done Hdone).
      simpl. rewrite Hp. rewrite (bind_ok _ _ s_done data s_done) by reflexivity.
      now rewrite (bind_ok _ _ _ _ _ Hu2). }
    assert (Hlen : length (done ++ [obj]) = S (length done)).
    { rewrite length_app. simpl. lia. }
    rewrite <- Hlen in H.
    destruct (IH (done ++ [obj]) lw1 lw' s3 st1' s_done' Hdone' Ha3
                (or_intror (ex_intro _ d3 Hd3)) H) as [flushes [Hws Hf]].
    rewrite <- app_assoc in Hf. simpl in Hf. rewrite Hlen in Hf.
    pose proof (upsert_data_writeouts c data s1) as Hsame.
    rewrite Hu in Hsame. simpl in Hsame. rewrite Hsame in Hws.
    unfold due_indices. simpl length. simpl seq. simpl map.
    fold (due_indices c (S (length done)) (length rest)).
    destruct Hw as [[Hnot ->]|[Hdue [d [Hd ->]]]].
    + rewrite filter_cons_False by exact Hnot.
      exists flushes. split; [exact Hws|exact Hf].
    + rewrite filter_cons_True by exact Hdue.
      eexists (_ :: flushes). split.
      * rewrite Hws. simpl. now rewrite <- app_assoc.
      * constructor; [|exact Hf]. exists d. split; [|reflexivity].
        rewrite Nat2Z.id, take_app_length, Hdone. simpl.
        destruct Ha as [Ha _]. now rewrite <- Ha.
Qed.

(** Five instances with batch size 2: a completed run sends three
    write-outs.  The one at index 2 carries the slice from offset
    [rows_start + 1] of width 2 of the rows cached when two instances have
    been upserted, the one at index 4 the slice from offset [rows_start + 3]
    of the rows cached when four have been, each to the range that starts
    two rows further down; the final one carries the rows left at the end
    from offset 4 on, to the range from row 4. *)
Theorem upsert_table_three_writeouts (c : config) (push_fields : list string)
    (queryset : list dict) (st st' : session) :
  batch_size c = 2 → length queryset = 5%nat →
  upsert_table c push_fields queryset st = (Ok tt, st') →
  ∃ cols rows d2 d4 d5,
    sheet_range_cols c = Ok cols
    ∧ sheet_range_rows c = Ok rows
    ∧ _sheet_data (upsert_each c push_fields (take 2 queryset) st).2 = Some d2
    ∧ _sheet_data (upsert_each c push_fields (take 4 queryset) st).2 = Some d4
    ∧ _sheet_data st' = Some d5
    ∧ writeouts st'
      = writeouts st ++
        [(range_string c cols.1 (rows.1 + 1 + 2) cols.2 (rows.1 + 1 + 2 + 2),
          slice d2 (rows.1 - 1 + 2) (rows.1 - 1 + 2 + 2));
         (range_string c cols.1 (rows.1 + 1 + 4) cols.2 (rows.1 + 1 + 4 + 2),
          slice d4 (rows.1 - 1 + 4) (rows.1 - 1 + 4 + 2));
         (range_string c cols.1 4 cols.2 rows.2, drop 4 d5)]
    ∧ (length (slice d2 (rows.1 - 1 + 2) (rows.1 - 1 + 2 + 2)) ≤ 2)%nat
    ∧ (length (slice d4 (rows.1 - 1 + 4) (rows.1 - 1 + 4 + 2)) ≤ 2)%nat.
Proof.
  intros Hb Hlen H. unfold upsert_table in H.
  apply bind_ok_inv in H as [cols [s1 [Hc H]]]. injection Hc as Hc <-.
  apply bind_ok_inv in H as [rows [s2 [Hr H]]]. injection Hr as Hr <-.
  apply bind_ok_inv in H as [lw [st1 [Hloop H]]].
  apply bind_ok_inv in H as [[] [st2 [Hfinal H]]]. injection H as H. subst st'.
  assert (Hd : ∀ k, due c k ↔ 0 < k ∧ k mod 2 = 0).
  { intros k. unfold due. rewrite Hb. split; [tauto|]. intros [? ?].
    repeat split; [assumption|lia|assumption]. }
  assert (Hlw : lw = 4).
  { pose proof (upsert_loop_last _ _ _ _ _ _ _ _ _ _ _ Hloop) as [Hl Hno].
    rewrite Hlen in Hl, Hno.
    destruct (Z.lt_ge_cases lw 4) as [Hlt|Hge].
    - destruct (Hno 4); [lia|exact Hlt|]. apply Hd. split; [lia|reflexivity].
    - destruct Hl as [->|[Hl _]]; lia. }
  subst lw.
  destruct (upsert_loop_agree _ _ _ _ _ _ _ _ _ _ _ _ (agree_refl st)
              (or_introl eq_refl) Hloop) as [_ [_ [_ Hcached]]].
  destruct Hcached as [d5 Hd5]; [intros ->; discriminate|].
  destruct (upsert_loop_payloads c push_fields cols.1 cols.2 rows.1 st queryset
              [] 0 4 st st1 st eq_refl (agree_refl st) (or_introl eq_refl) Hloop)
    as [flushes [Hw Hf]].
  simpl in Hf. rewrite Hlen in Hf. unfold due_indices in Hf.
  change (map Z.of_nat (seq 0 5)) with [0; 1; 2; 3; 4] in Hf.
  rewrite filter_cons_False in Hf by (rewrite Hd; intros [E _]; lia).
  rewrite filter_cons_False in Hf by (rewrite Hd; intros [_ E]; discriminate E).
  rewrite filter_cons_True in Hf by (rewrite Hd; split; [lia|reflexivity]).
  rewrite filter_cons_False in Hf by (rewrite Hd; intros [_ E]; discriminate E).
  rewrite filter_cons_True in Hf by (rewrite Hd; split; [lia|reflexivity]).
  rewrite filter_nil in Hf.
  apply Forall2_cons_inv_l in Hf as [w2 [fl [[d2 [Hd2 ->]] [Hf ->]]]].
  apply Forall2_cons_inv_l in Hf as [w4 [fl' [[d4 [Hd4 ->]] [Hf ->]]]].
  apply Forall2_nil_inv_l in Hf as ->.
  rewrite Hb in Hw.
  rewrite Hlen in Hfinal. change (4 <? Z.of_nat 5) with true in Hfinal.
  unfold final_writeout in Hfinal.
  rewrite (bind_ok _ _ _ _ _ (sheet_data_cached c st1 d5 Hd5)) in Hfinal.
  injection Hfinal as <-.
  exists cols, rows, d2, d4, d5.
  split; [exact Hc|]. split; [exact Hr|].
  split; [exact Hd2|]. split; [exact Hd4|]. split; [exact Hd5|].
  split; [|split; [now apply (slice_length d2 _ 2)|now apply (slice_length d4 _ 2)]].
  simpl. rewrite Hw, <- app_assoc. simpl.
  now rewrite (slice_from_drop d5 4) by lia.
Qed.

(** The run of the five instances on the sheet with only its header row:
    the slices at the indices 2 and 4 start beyond the rows upserted so
    far, and the final write-out carries the fifth row. *)
Lemma upsert_table_three_writeouts_witness :
  let st' := (upsert_table batch_of_two ["id"; "Name"] five_instances
                (fresh (Ok [name_id_headers]))).2 in
  writeouts st'
  = [("Sheet1!A4:Z6", []); ("Sheet1!A6:Z8", []);
     ("Sheet1!A4:Z30000", [[VStr "Eve"; VStr "id-5"]])].
Proof.
  intros st'.
  destruct (upsert_table_three_writeouts batch_of_two ["id"; "Name"]
              five_instances (fresh (Ok [name_id_headers])) st'
              eq_refl eq_refl)
    as [cols [rows [d2 [d4 [d5 [Hc [Hr [H2 [H4 [H5 [Hw _]]]]]]]]]]].
  - vm_compute. reflexivity.
  - vm_compute in Hc, Hr, H2, H4, H5.
    injection Hc as <-. injection Hr as <-.
    injection H2 as <-. injection H4 as <-. injection H5 as <-.
    rewrite Hw. vm_compute. reflexivity.
Defined.

(** * The pushed data of an instance *)

Lemma dict_get_set_same (k : string) (v : value) (d : dict) :
  dict_get k (dict_set k v d) = Some v.
Proof.
  induction d as [|[k' v'] d IH]; simpl.
  - now rewrite String.eqb_refl.
  - destruct (String.eqb k k') eqn:E; simpl; rewrite E; [reflexivity|exact IH].
Qed.

Lemma dict_get_set_other (k k' : string) (v : value) (d : dict) :
  k' ≠ k → dict_get k' (dict_set k v d) = dict_get k' d.
Proof.
  intros Hne. induction d as [|[k0 v0] d IH]; simpl.
  - apply String.eqb_neq in Hne. now rewrite Hne.
  - destruct (String.eqb k k0) eqn:E; simpl.
    + apply String.eqb_eq in E as <-.
      apply String.eqb_neq in Hne. now rewrite Hne.
    + destruct (String.eqb k' k0); [reflexivity|exact IH].
Qed.

Lemma keys_dict_set (k : string) (v : value) (d : dict) :
  keys (dict_set k v d) = if decide (k ∈ keys d) then keys d else keys d ++ [k].
Proof.
  unfold keys. induction d as [|[k0 v0] d IH].
  - destruct (decide (k ∈ map fst [])) as [Hin|_]; [|reflexivity].
    now apply elem_of_nil in Hin.
  - change (map fst ((k0, v0) :: d)) with (k0 :: map fst d).
    change (dict_set k v ((k0, v0) :: d))
      with (if String.eqb k k0 then (k0, v) :: d
            else (k0, v0) :: dict_set k v d).
    destruct (String.eqb k k0) eqn:E.
    + apply String.eqb_eq in E as <-.
      destruct (decide (k ∈ k :: map fst d)) as [_|Hno]; [reflexivity|].
      destruct Hno. now left.
    + apply String.eqb_neq in E.
      change (map fst ((k0, v0) :: dict_set k v d))
        with (k0 :: map fst (dict_set k v d)).
      rewrite IH.
      destruct (decide (k ∈ map fst d)) as [Hin|Hno],
               (decide (k ∈ k0 :: map fst d)) as [Hin'|Hno']; try reflexivity.
      * destruct Hno'. now right.
      * apply elem_of_cons in Hin' as [K|K]; [now destruct E|now destruct Hno].
Qed.

Lemma push_data_spec (obj : dict) (fields : list string) :
  ∀ acc data,
    NoDup (keys acc) →
    push_data obj fields acc = Ok data →
    NoDup (keys data)
    ∧ (∀ f, f ∈ fields → dict_get f data = dict_get f obj
                         ∧ is_Some (dict_get f obj))
    ∧ (∀ f, f ∉ fields → dict_get f data = dict_get f acc)
    ∧ (∀ f, f ∈ keys data ↔ f ∈ keys acc ∨ f ∈ fields).
Proof.
  induction fields as [|g fields IH]; intros acc data Hnd H.
  - injection H as <-. split; [exact Hnd|].
    split; [intros f Hf; now apply elem_of_nil in Hf|].
    split; [reflexivity|].
    intros f. split; [intros Hf; now left|].
    intros [Hf|Hf]; [exact Hf|now apply elem_of_nil in Hf].
  - simpl in H. unfold getattr in H.
    destruct (dict_get g obj) as [v|] eqn:Hg; [|discriminate]. simpl in H.
    assert (Hnd' : NoDup (keys (dict_set g v acc))).
    { rewrite keys_dict_set. destruct (decide (g ∈ keys acc)); [exact Hnd|].
      apply NoDup_app. repeat split; [exact Hnd| |apply NoDup_singleton].
      intros x Hx Hx'. apply list_elem_of_singleton in Hx' as ->. contradiction. }
    destruct (IH _ _ Hnd' H) as [H1 [H2 [H3 H4]]].
    split; [exact H1|]. split; [|split].
    + intros f Hf. destruct (decide (f ∈ fields)) as [Hin|Hno]; [now apply H2|].
      apply elem_of_cons in Hf as [->|Hf]; [|contradiction].
      rewrite (H3 g Hno), dict_get_set_same, Hg. eauto.
    + intros f Hf. rewrite H3 by (intros K; apply Hf; now right).
      apply dict_get_set_other. intros ->. apply Hf. now left.
    + intros f. rewrite H4, keys_dict_set.
      clear IH H H1 H2 H3 H4 Hnd Hnd' Hg.
      destruct (decide (g ∈ keys acc)) as [Hin|Hno];
        rewrite ?elem_of_app, ?list_elem_of_singleton, ?elem_of_cons;
        intuition (subst; auto).
Qed.

(** The data [upsert_table] pushes for an instance: one entry for each push
    field, with the attribute of that name as its value, and no entry
    twice; it is built only when the instance has every push field. *)
Theorem push_data_lookup (obj : dict) (fields : list string) (data : dict) :
  push_data obj fields [] = Ok data →
  NoDup (keys data)
  ∧ (∀ f, f ∈ keys data ↔ f ∈ fields)
  ∧ (∀ f, f ∈ fields → is_Some (dict_get f obj)
                       ∧ dict_get f data = dict_get f obj)
  ∧ (∀ f, f ∉ fields → dict_get f data = None).
Proof.
  intros H. destruct (push_data_spec obj fields [] data (NoDup_nil_2) H)
    as [H1 [H2 [H3 H4]]].
  split; [exact H1|]. split; [|split].
  - intros f. rewrite H4. split; [intros [K|K]; [now apply elem_of_nil in K|exact K]|].
    intros K. now right.
  - intros f Hf. destruct (H2 f Hf) as [K1 K2]. now split.
  - intros f Hf. now rewrite (H3 f Hf).
Qed.

Lemma push_data_lookup_witness :
  let obj := [("id", VInt 7); ("Name", VStr "Ann"); ("secret", VStr "x")] in
  ∃ data, push_data obj ["Name"; "id"; "Name"] [] = Ok data
          ∧ keys data = ["Name"; "id"]
          ∧ dict_get "secret" data = None.
Proof.
  intros obj. eexists. split; [reflexivity|]. split; [reflexivity|].
  destruct (push_data_lookup obj ["Name"; "id"; "Name"] _ eq_refl)
    as [_ [_ [_ H]]].
  apply H. intros K. apply list_elem_of_In in K. simpl in K.
  destruct K as [K|[K|[K|[]]]]; discriminate.
Defined.
